(** * QueryAPI: the real-time queue consumer and the editor's debug/replay surface

    A shallow embedding of two pieces of the repository:

    - [consumer], the queue handler of [indexer-js-queue-handler/handler.js]
      (the [for ... of event.Records] loop around [indexer.runFunctions]);
    - [executeIndexerFunction], the debug/replay entry point of the editor
      component, together with the storage-namespace naming rule
      ([schemaName]) it computes.

    JavaScript strings are sequences of UTF-16 code units; they are modelled
    as [list N].  Code that lives outside the two source files (the
    [Indexer] class, the [IndexerRunner], [getLatestBlockHeight],
    [JSON.parse]) is taken as a parameter of the corresponding section, with
    an explicit world state threaded through every call. *)

From Stdlib Require Import ZArith NArith Ascii String.
From stdpp Require Import gmap list pretty.

Local Open Scope Z_scope.

(** ** JavaScript strings *)

Module JsString.

(** A string is the list of its UTF-16 code units. *)
Abbreviation jsstring := (list N).

(** A literal of the source, written with 7-bit characters. *)
Definition js (s : string) : jsstring :=
  List.map N_of_ascii (list_ascii_of_string s).

(** [startsWith pat s]: the code units of [pat] are a prefix of [s]. *)
Fixpoint startsWith (pat s : jsstring) : bool :=
  match pat, s with
  | [], _ => true
  | _ :: _, [] => false
  | p :: pat', c :: s' => (p =? c)%N && startsWith pat' s'
  end.

(** [String.prototype.indexOf(searchString)]: the smallest index at which
    [pat] occurs in [s], and [-1] when it does not occur.  [k] is the
    index of the head of [s] in the whole string. *)
Fixpoint indexOf_from (s pat : jsstring) (k : Z) : Z :=
  if startsWith pat s then k
  else match s with
       | [] => -1
       | _ :: s' => indexOf_from s' pat (k + 1)
       end.

Definition indexOf (s pat : jsstring) : Z := indexOf_from s pat 0.

(** The character class [a-zA-Z0-9] of a regular expression without the
    flags [i] and [u]: it is tested on single code units. *)
Definition is_alnum (c : N) : bool :=
  ((97 <=? c) && (c <=? 122) || (65 <=? c) && (c <=? 90)
   || (48 <=? c) && (c <=? 57))%N.

(** The code unit of ['_']. *)
Definition underscore : N := 95%N.

(** [s.replace(/[^a-zA-Z0-9]/g, '_')]: with the [g] flag every match is
    replaced; a match of the negated class is exactly one code unit, and
    the replacement text ['_'] has no [$] pattern. *)
Definition replace_non_alnum (s : jsstring) : jsstring :=
  List.map (fun c => if is_alnum c then c else underscore) s.

(** What the replacement does to one code unit. *)
Definition normalize (c : N) : N := if is_alnum c then c else underscore.

(** The code units of an identifier: [a-zA-Z0-9_]. *)
Definition is_ident_char (c : N) : bool := is_alnum c || (c =? underscore)%N.

(** Two code units with the same image: they are equal, or both are
    outside [a-zA-Z0-9]. *)
Definition same_class (c1 c2 : N) : Prop :=
  c1 = c2 \/ (is_alnum c1 = false /\ is_alnum c2 = false).

(** Equality of strings, code unit by code unit. *)
Fixpoint jsstring_eqb (a b : jsstring) : bool :=
  match a, b with
  | [], [] => true
  | x :: a', y :: b' => (x =? y)%N && jsstring_eqb a' b'
  | _, _ => false
  end.

End JsString.
Import JsString.

(** ** Completions: a call returns a value or throws *)

Module Completion.

(** What a [throw] carries.  The three [ExecutionError] cases are the ones
    a function run can end with; [SyntaxError] is what [JSON.parse]
    throws, [OtherError] any other thrown value. *)
Inductive exn : Type :=
| ProvisioningFailed
| Timeout
| UserCodeFailed (message : jsstring)
| SyntaxError (message : jsstring)
| OtherError (message : jsstring).

Inductive result (A : Type) : Type :=
| Ok (a : A)
| Throw (e : exn).
Arguments Ok {A} a.
Arguments Throw {A} e.

Definition is_Ok {A} (r : result A) : bool :=
  match r with Ok _ => true | Throw _ => false end.

(** The monad of the two handlers.  A world state [W] (everything the
    external calls can read and write) is threaded through, the observable
    events of type [E] are collected in the order they happen, and a
    computation ends normally or by a throw.  [await p] is sequencing in
    this monad: what follows runs once the awaited call has settled. *)
Definition M (E W A : Type) : Type := W -> result A * list E * W.

Definition ret {E W A} (a : A) : M E W A := fun w => (Ok a, [], w).

(** An observable event. *)
Definition emit {E W} (ev : E) : M E W unit := fun w => (Ok tt, [ev], w).

(** [prepend evs out]: the events [evs] happened before those of [out]. *)
Definition prepend {E W A} (evs : list E) (out : result A * list E * W)
  : result A * list E * W :=
  let '(r, tr, w) := out in (r, evs ++ tr, w).

Definition bind {E W A B} (m : M E W A) (k : A -> M E W B) : M E W B :=
  fun w =>
    match m w with
    | (Ok a, tr, w') => prepend tr (k a w')
    | (Throw e, tr, w') => (Throw e, tr, w')
    end.

(** [try { body } catch (e) { handler }]. *)
Definition try_catch {E W A} (body : M E W A) (handler : exn -> M E W A)
  : M E W A :=
  fun w =>
    match body w with
    | (Ok a, tr, w') => (Ok a, tr, w')
    | (Throw e, tr, w') => prepend tr (handler e w')
    end.

(** [for (const x of xs) { body }]; a [continue] ends [body x] normally,
    a throw leaves the loop. *)
Fixpoint for_of {E W A} (xs : list A) (body : A -> M E W unit) : M E W unit :=
  match xs with
  | [] => ret tt
  | x :: rest => bind (body x) (fun _ => for_of rest body)
  end.

(** A value computed without touching the world. *)
Definition lift {E W A} (r : result A) : M E W A := fun w => (r, [], w).

(** A call of an external (asynchronous) operation [op], awaited, leaving
    the event [ev] in the trace. *)
Definition call {E W A} (ev : E) (op : W -> result A * W) : M E W A :=
  fun w => let '(r, w') := op w in (r, [ev], w').

Definition completion_of {E W A} (out : result A * list E * W) : result A :=
  out.1.1.
Definition trace_of {E W A} (out : result A * list E * W) : list E :=
  out.1.2.
Definition world_of {E W A} (out : result A * list E * W) : W :=
  out.2.

End Completion.
Import Completion.

Declare Scope js_scope.
Delimit Scope js_scope with js.
Notation "x <- m ;; k" := (bind m (fun x => k))
  (at level 100, m at next level, right associativity) : js_scope.

(** ** The real-time queue consumer ([handler.js]) *)

Module QueueHandler.

(** The [indexer_function] object of a queue message. *)
Record function_config : Type := {
  account_id : jsstring;
  function_name : jsstring;
  code : jsstring;
  schema : jsstring
}.

(** A parsed message body.  The producer serialises a typed message, so a
    body that parses has this shape. *)
Record queue_message : Type := {
  block_height : Z;
  is_historical : bool;
  indexer_function : function_config
}.

Record sqs_record : Type := { body : jsstring }.

Record sqs_event : Type := { Records : list sqs_record }.

(** The mode flags object handed to [runFunctions]. *)
Record run_options : Type := { imperative : bool; provision : bool }.

(** The arguments of one call of [runFunctions]. *)
Record invocation : Type := {
  inv_block_height : Z;
  inv_functions : gmap jsstring function_config;
  inv_is_historical : bool;
  inv_options : run_options
}.

(** What the consumer does that can be observed from outside. *)
Inductive action : Type :=
| RunFunctions (i : invocation)
| ConsoleError (e : exn).

(** The legacy direct-storage-access marker. *)
Definition marker : jsstring := js "context.db".

Section Consumer.

(** The world outside the handler: the storage, the provisioner, the state
    of the [Indexer] instance. *)
Context {W : Type}.

(** The value of [mutations]; the consumer does not use it. *)
Context {Mutations : Type}.

(** [JSON.parse] of a record body, read at the message type; a body that is
    not a message makes it throw. *)
Variable JSON_parse : jsstring -> result queue_message.

(** [indexer.runFunctions] of the [Indexer] created for 'mainnet': it may
    change the world and it returns mutations or throws. *)
Variable runFunctions :
  Z -> gmap jsstring function_config -> bool -> run_options ->
  W -> result Mutations * W.

Local Open Scope js_scope.

(** The body of the loop, for one record. *)
Definition consumer_record (record : sqs_record) : M action W unit :=
  jsonBody <- lift (JSON_parse (body record)) ;;
  let block_height := block_height jsonBody in
  let is_historical := is_historical jsonBody in
  let functions : gmap jsstring function_config := ∅ in
  let function_config := indexer_function jsonBody in
  let code := code function_config in
  if 0 <=? indexOf code marker then
    ret tt (* continue *)
  else
    let function_name :=
      account_id function_config ++ js "/" ++ function_name function_config in
    let functions := <[function_name := function_config]> functions in
    let options := {| imperative := true; provision := true |} in
    try_catch
      (mutations <- call (RunFunctions (Build_invocation block_height functions is_historical options))
                      (runFunctions block_height functions is_historical options) ;;
       ret tt)
      (fun e => emit (ConsoleError e)).

Definition consumer (event : sqs_event) : M action W unit :=
  for_of (Records event) consumer_record.

(** *** Vocabulary of the statements about the consumer *)

(** The message carries the legacy marker. *)
Definition has_marker (m : queue_message) : bool :=
  0 <=? indexOf (code (indexer_function m)) marker.

(** The invocation that the message [m] asks for. *)
Definition request (m : queue_message) : invocation :=
  let fc := indexer_function m in
  {| inv_block_height := block_height m;
     inv_functions := <[ account_id fc ++ js "/" ++ function_name fc := fc ]> ∅;
     inv_is_historical := is_historical m;
     inv_options := {| imperative := true; provision := true |} |}.

(** The invocations that a batch asks for: one for each record whose body
    parses and does not carry the marker, in the order of the batch. *)
Fixpoint requests (records : list sqs_record) : list invocation :=
  match records with
  | [] => []
  | record :: rest =>
      match JSON_parse (body record) with
      | Ok m => if has_marker m then requests rest else request m :: requests rest
      | Throw _ => requests rest
      end
  end.

(** The records before the first one whose body does not parse: the ones
    the loop reaches and gets through. *)
Fixpoint parsed_prefix (records : list sqs_record) : list sqs_record :=
  match records with
  | [] => []
  | record :: rest =>
      if is_Ok (JSON_parse (body record)) then record :: parsed_prefix rest
      else []
  end.

(** What [JSON.parse] throws at the first body that does not parse. *)
Fixpoint first_parse_error (records : list sqs_record) : option exn :=
  match records with
  | [] => None
  | record :: rest =>
      match JSON_parse (body record) with
      | Ok _ => first_parse_error rest
      | Throw e => Some e
      end
  end.

(** Calling [runFunctions] with the arguments of [i]. *)
Definition perform (i : invocation) : W -> result Mutations * W :=
  runFunctions (inv_block_height i) (inv_functions i) (inv_is_historical i)
    (inv_options i).

(** The invocations [invs] made one after the other from the world [w], each
    awaited, whatever its outcome: the errors thrown, and the final world. *)
Fixpoint run_all (invs : list invocation) (w : W) : list exn * W :=
  match invs with
  | [] => ([], w)
  | i :: rest =>
      let '(r, w1) := perform i w in
      let '(es, w2) := run_all rest w1 in
      (match r with Ok _ => es | Throw e => e :: es end, w2)
  end.

End Consumer.

(** The invocations of a trace, and the errors written to the console. *)
Definition invocations (tr : list action) : list invocation :=
  omap (fun a => match a with RunFunctions i => Some i | _ => None end) tr.

Definition console_errors (tr : list action) : list exn :=
  omap (fun a => match a with ConsoleError e => Some e | _ => None end) tr.

(** The handler has no delete call of its own: the queue removes the
    messages of a batch when the promise returned by [consumer] is
    fulfilled, and redelivers them when it is rejected. *)
Definition acknowledged {W} (out : result unit * list action * W) : bool :=
  is_Ok (completion_of out).

End QueueHandler.

(** ** Primitive JavaScript values of the editor *)

Module JsValue.

(** Numbers.  The numbers of this program are block heights: a number is
    [NaN], which a failed conversion gives, or a double whose value is the
    integer [z]. *)
Inductive jsnum : Type :=
| NaN
| Int (z : Z).

Inductive jsval : Type :=
| JUndefined
| JNull
| JBool (b : bool)
| JNum (n : jsnum)
| JStr (s : jsstring).

(** [a === b] on numbers: [NaN] is not equal to itself. *)
Definition num_strict_eq (a b : jsnum) : bool :=
  match a, b with
  | Int x, Int y => x =? y
  | _, _ => false
  end.

(** [a === b]: no conversion, values of different types differ. *)
Definition strict_eq (a b : jsval) : bool :=
  match a, b with
  | JUndefined, JUndefined => true
  | JNull, JNull => true
  | JBool x, JBool y => Bool.eqb x y
  | JNum x, JNum y => num_strict_eq x y
  | JStr x, JStr y => jsstring_eqb x y
  | _, _ => false
  end.

(** ToBoolean, the test of [if (v)]. *)
Definition truthy (v : jsval) : bool :=
  match v with
  | JUndefined | JNull => false
  | JBool b => b
  | JNum NaN => false
  | JNum (Int z) => negb (z =? 0)
  | JStr s => negb (jsstring_eqb s [])
  end.

(** The double nearest to the integer [z], ties going to the even
    significand: a double has 53 significant bits, so an integer below
    2^53 in magnitude is a double, and a larger one is rounded to a
    multiple of a power of two.  A magnitude of 2^1024 or more, which is
    infinite in the language, is outside the type [jsnum]. *)
Definition round_to_double (z : Z) : Z :=
  let a := Z.abs z in
  if a <? 2 ^ 53 then z
  else
    let e := Z.log2 a - 52 in
    let q := a / 2 ^ e in
    let r := a mod 2 ^ e in
    let half := 2 ^ (e - 1) in
    let q' := if (half <? r) || ((r =? half) && Z.odd q) then q + 1 else q in
    Z.sgn z * (q' * 2 ^ e).

(** [a - b] on numbers: the difference of two doubles is their exact
    difference rounded to a double. *)
Definition num_sub (a b : jsnum) : jsnum :=
  match a, b with
  | Int x, Int y => Int (round_to_double (x - y))
  | _, _ => NaN
  end.

(** A parameter with a default value: the default replaces [undefined]
    (a missing argument), and nothing else. *)
Definition default_param (default v : jsval) : jsval :=
  match v with
  | JUndefined => default
  | _ => v
  end.

Section Conversions.

(** The numeric value of a string (StringToNumber of the language). *)
Variable StringToNumber : jsstring -> jsnum.

(** [Number(v)], which is ToNumber; also applied to the operands of [-]. *)
Definition Number (v : jsval) : jsnum :=
  match v with
  | JUndefined => NaN
  | JNull => Int 0
  | JBool true => Int 1
  | JBool false => Int 0
  | JNum n => n
  | JStr s => StringToNumber s
  end.

End Conversions.

End JsValue.
Import JsValue.

(** ** The editor's debug/replay surface ([executeIndexerFunction]) *)

Module Editor.

(** The identity of the indexer shown in the editor. *)
Record indexer_details : Type := {
  accountId : jsstring;
  indexerName : jsstring
}.

(** The values of the component that [executeIndexerFunction] reads.
    [heights] is the debug list in the state of the component, here in its
    array form, as the buttons of the editor fill it in. *)
Record editor : Type := {
  indexerDetails : indexer_details;
  heights : list jsval;
  indexingCode : jsstring;
  schema : jsstring
}.

(** What [executeIndexerFunction] does that can be observed. *)
Inductive action : Type :=
| SetIsExecutingIndexerFunction (b : bool)
| ExecuteIndexerFunctionOnHeights (heights : list jsval)
    (indexingCode schema schemaName : jsstring) (option : jsval)
| Start (startingBlockHeight : jsval)
    (indexingCode schema schemaName : jsstring) (option : jsval)
| GetLatestBlockHeight
| ConsoleLog (message : jsstring).

(** The storage-namespace name:
    [accountId.concat("_", indexerName).replace(/[^a-zA-Z0-9]/g, '_')]. *)
Definition schemaName (d : indexer_details) : jsstring :=
  replace_non_alnum (accountId d ++ js "_" ++ indexerName d).

Definition invalid_height_message : jsstring :=
  js "Invalid Starting Block Height: starting block height is null or 0".

Section ExecuteIndexerFunction.

(** The world outside the component: the runner, the chain, the storage. *)
Context {W : Type}.

Variable StringToNumber : jsstring -> jsnum.

(** [indexerRunner.executeIndexerFunctionOnHeights]. *)
Variable runner_executeIndexerFunctionOnHeights :
  list jsval -> jsstring -> jsstring -> jsstring -> jsval -> W -> result unit * W.

(** [indexerRunner.start]. *)
Variable runner_start :
  jsval -> jsstring -> jsstring -> jsstring -> jsval -> W -> result unit * W.

(** [getLatestBlockHeight]. *)
Variable getLatestBlockHeight : W -> result jsval * W.

Variable self : editor.

Local Open Scope js_scope.

Definition executeIndexerFunction (option_arg startingBlockHeight_arg : jsval)
  : M action W unit :=
  let option := default_param (JStr (js "latest")) option_arg in
  let startingBlockHeight := default_param JNull startingBlockHeight_arg in
  let heights := heights self in
  let indexingCode := indexingCode self in
  let schema := schema self in
  _ <- emit (SetIsExecutingIndexerFunction true) ;;
  let schemaName := schemaName (indexerDetails self) in
  _ <- (if strict_eq option (JStr (js "debugList")) then
          call (ExecuteIndexerFunctionOnHeights heights indexingCode schema schemaName option)
            (runner_executeIndexerFunctionOnHeights heights indexingCode schema schemaName option)
        else if strict_eq option (JStr (js "specific")) then
          if strict_eq startingBlockHeight JNull
             && strict_eq (JNum (Number StringToNumber startingBlockHeight)) (JNum (Int 0))
          then
            emit (ConsoleLog invalid_height_message) (* break *)
          else
            call (Start startingBlockHeight indexingCode schema schemaName option)
              (runner_start startingBlockHeight indexingCode schema schemaName option)
        else if strict_eq option (JStr (js "latest")) then
          latestHeight <- call GetLatestBlockHeight getLatestBlockHeight ;;
          if truthy latestHeight then
            let start := JNum (num_sub (Number StringToNumber latestHeight) (Int 10)) in
            call (Start start indexingCode schema schemaName option)
              (runner_start start indexingCode schema schemaName option)
          else ret tt
        else ret tt) ;;
  emit (SetIsExecutingIndexerFunction false).

End ExecuteIndexerFunction.



End Editor.

(** ** A concrete batch for the queue consumer *)

Module QueueDemo.
Import QueueHandler.

Definition dquote : jsstring := [34%N].

Definition json_string (s : jsstring) : jsstring := dquote ++ s ++ dquote.

Definition json_member (key value : jsstring) : jsstring :=
  json_string key ++ js ":" ++ value.

(** The text of a message body as the producer writes it; the texts used
    below contain nothing that needs escaping. *)
Definition message_body (height historical : jsstring) (fc : function_config)
  : jsstring :=
  js "{" ++ json_member (js "block_height") height ++ js ","
  ++ json_member (js "is_historical") historical ++ js ","
  ++ json_member (js "indexer_function")
       (js "{"
        ++ json_member (js "account_id") (json_string (account_id fc)) ++ js ","
        ++ json_member (js "function_name") (json_string (function_name fc)) ++ js ","
        ++ json_member (js "code") (json_string (code fc)) ++ js ","
        ++ json_member (js "schema") (json_string (schema fc))
        ++ js "}")
  ++ js "}".

Definition posts_schema : jsstring := js "CREATE TABLE posts(id INT, text TEXT)".

(** An indexer function on the current code path. *)
Definition feed : function_config :=
  {| account_id := js "alice.near";
     function_name := js "feed";
     code := js "const h = block.blockHeight; await context.set('height', h);";
     schema := posts_schema |}.

(** An indexer function that uses the legacy direct storage access. *)
Definition legacy : function_config :=
  {| account_id := js "bob.near";
     function_name := js "posts";
     code := js "await context.db.Posts.insert({id: block.blockHeight});";
     schema := posts_schema |}.

Definition message100 : queue_message :=
  {| block_height := 100; is_historical := false; indexer_function := feed |}.
Definition message101 : queue_message :=
  {| block_height := 101; is_historical := false; indexer_function := feed |}.
Definition message102 : queue_message :=
  {| block_height := 102; is_historical := false; indexer_function := legacy |}.

Definition record100 : sqs_record :=
  {| body := message_body (js "100") (js "false") feed |}.
Definition record101 : sqs_record :=
  {| body := message_body (js "101") (js "false") feed |}.
Definition record102 : sqs_record :=
  {| body := message_body (js "102") (js "false") legacy |}.

(** [JSON.parse] on the three bodies above; any other text is taken not to
    be a message. *)
Definition parse_demo (text : jsstring) : result queue_message :=
  if jsstring_eqb text (body record100) then Ok message100
  else if jsstring_eqb text (body record101) then Ok message101
  else if jsstring_eqb text (body record102) then Ok message102
  else Throw (SyntaxError (js "Unexpected token in JSON")).

(** An [Indexer] whose provisioning fails at height 100 and whose other runs
    succeed.  The world is the list of the heights whose run has completed. *)
Definition runFunctions_demo (height : Z)
    (functions : gmap jsstring function_config) (historical : bool)
    (options : run_options) (processed : list Z) : result unit * list Z :=
  if provision options && (height =? 100) then (Throw ProvisioningFailed, processed)
  else (Ok tt, processed ++ [height]).

End QueueDemo.

(** ** The debug/replay surface on concrete inputs *)

Module EditorDemo.
Import Editor.

(** The world of the demo runner is the list of the heights it was asked
    to process, in the order it was asked. *)
Definition record_height (rows : list jsval) (height : jsval) : list jsval :=
  rows ++ [height].

(** A runner stub for [executeIndexerFunctionOnHeights]: it records the
    heights it is handed and ends normally. *)
Definition onHeights_demo (heights : list jsval)
    (indexingCode schema schemaName : jsstring) (option : jsval)
    (rows : list jsval) : result unit * list jsval :=
  (Ok tt, fold_left record_height heights rows).

(** A runner stub for [start]: it records the height it is started at. *)
Definition start_demo (startingBlockHeight : jsval)
    (indexingCode schema schemaName : jsstring) (option : jsval)
    (rows : list jsval) : result unit * list jsval :=
  (Ok tt, record_height rows startingBlockHeight).

(** The chain is at height 110. *)
Definition latest_demo (rows : list jsval) : result jsval * list jsval :=
  (Ok (JNum (Int 110)), rows).

(** No string is read as a number in the demo. *)
Definition StringToNumber_demo (s : jsstring) : jsnum := NaN.

Definition editor_demo : editor :=
  {| indexerDetails := {| accountId := js "alice.near"; indexerName := js "feed" |};
     heights := [JNum (Int 100); JNum (Int 100); JNum (Int 101)];
     indexingCode := js "await context.db.Posts.insert({id: block.blockHeight});";
     schema := js "CREATE TABLE posts(id INT, text TEXT)" |}.

(** The editor's function on the demo runner. *)
Definition executeIndexerFunction_demo : jsval -> jsval -> M action (list jsval) unit :=
  executeIndexerFunction StringToNumber_demo onHeights_demo
    start_demo latest_demo editor_demo.

End EditorDemo.

(** ** Vocabulary for the state updates of the editor *)

Module EditorVocabulary.
Import Editor.


End EditorVocabulary.

(** ** More string operations of the language *)

Module JsStringOps.

(** The code units of WhiteSpace and LineTerminator: the class [\s] of a
    regular expression, and what [trim] strips. *)
Definition is_space (c : N) : bool :=
  ((c =? 9) || (c =? 10) || (c =? 11) || (c =? 12) || (c =? 13) || (c =? 32)
   || (c =? 160) || (c =? 5760) || ((8192 <=? c) && (c <=? 8202))
   || (c =? 8232) || (c =? 8233) || (c =? 8239) || (c =? 8287)
   || (c =? 12288) || (c =? 65279))%N.

(** The longest prefix of code units satisfying [p] removed. *)
Fixpoint skip_while (p : N -> bool) (s : jsstring) : jsstring :=
  match s with
  | [] => []
  | c :: s' => if p c then skip_while p s' else s
  end.

(** [s.trim()]. *)
Definition trim (s : jsstring) : jsstring :=
  rev (skip_while is_space (rev (skip_while is_space s))).

Definition dollar : N := 36%N.
Definition ampersand : N := 38%N.
Definition apostrophe : N := 39%N.
Definition backtick : N := 96%N.

(** GetSubstitution for a string pattern, which has no capture groups:
    in the replacement text [$$] stands for a dollar, [$&] for the matched
    text, [$`] for the text before the match and [$'] for the text after
    it; a dollar followed by anything else stands for itself. *)
Fixpoint substitution (template matched before after : jsstring) : jsstring :=
  match template with
  | [] => []
  | c :: t =>
      if (c =? dollar)%N then
        match t with
        | [] => [c]
        | d :: t' =>
            if (d =? dollar)%N then dollar :: substitution t' matched before after
            else if (d =? ampersand)%N then
              matched ++ substitution t' matched before after
            else if (d =? backtick)%N then
              before ++ substitution t' matched before after
            else if (d =? apostrophe)%N then
              after ++ substitution t' matched before after
            else c :: substitution t matched before after
        end
      else c :: substitution t matched before after
  end.

(** [whole.replaceAll(pat, replacement)] with a string pattern, scanning
    [whole] from left to right.  [s] is what is left to scan, [pos] the
    index of its head in [whole], and [skip] the number of code units of
    the last match that are still to be passed over.  Matches do not
    overlap; the empty pattern matches before every code unit and at the
    end. *)
Fixpoint replaceAll_from (whole s pat replacement : jsstring) (pos skip : nat)
  : jsstring :=
  let sub :=
    substitution replacement pat (take pos whole) (drop (pos + length pat) whole) in
  match s with
  | [] => if (skip =? 0)%nat && startsWith pat [] then sub else []
  | c :: s' =>
      match skip with
      | S k => replaceAll_from whole s' pat replacement (S pos) k
      | O =>
          if startsWith pat s then
            sub ++ match length pat with
                   | O => c :: replaceAll_from whole s' pat replacement (S pos) 0
                   | S n => replaceAll_from whole s' pat replacement (S pos) n
                   end
          else c :: replaceAll_from whole s' pat replacement (S pos) 0
      end
  end.

Definition replaceAll (s pat replacement : jsstring) : jsstring :=
  replaceAll_from s s pat replacement 0 0.

(** The text before the last occurrence of the code unit [c], when [c]
    occurs: what a greedy star over every code unit captures when it is
    followed by [c]. *)
Fixpoint upto_last (c : N) (s : jsstring) : option jsstring :=
  match s with
  | [] => None
  | x :: s' =>
      match upto_last c s' with
      | Some p => Some (x :: p)
      | None => if (x =? c)%N then Some [] else None
      end
  end.

Definition lparen : N := 40%N.
Definition rparen : N := 41%N.
Definition lbrace : N := 123%N.
Definition rbrace : N := 125%N.

(** The regular expression of [registerFunction] tried at the head of [s]:
    the text getBlock, white space, an opening parenthesis, code units
    other than the closing parenthesis, a closing parenthesis, white
    space, an opening brace, the capture group over any code units, and a
    closing brace.  The result is the capture group.  Each starred class
    but the last is followed by a code unit outside the class, so its
    greedy match is the only one that can succeed; the last star
    backtracks to the last closing brace. *)
Definition match_getBlock_at (s : jsstring) : option jsstring :=
  if startsWith (js "getBlock") s then
    match skip_while is_space (drop 8 s) with
    | c1 :: r1 =>
        if (c1 =? lparen)%N then
          match skip_while (fun c => negb (c =? rparen)%N) r1 with
          | _ :: r2 =>
              match skip_while is_space r2 with
              | c3 :: r3 => if (c3 =? lbrace)%N then upto_last rbrace r3 else None
              | [] => None
              end
          | [] => None
          end
        else None
    | [] => None
    end
  else None.

(** [s.match(/getBlock.../)]: the leftmost match; [None] is [null]. *)
Fixpoint match_getBlock (s : jsstring) : option jsstring :=
  match match_getBlock_at s with
  | Some g => Some g
  | None =>
      match s with
      | [] => None
      | _ :: s' => match_getBlock s'
      end
  end.

End JsStringOps.
Import JsStringOps.

(** ** The other handlers of the editor component *)

Module EditorUI.
Import Editor.

(** What a validator of [utils/validators] returns: [{ data, error }]. *)
Record validation_error : Type := {
  error_type : jsstring;
  error_message : jsstring
}.

Record validation : Type := {
  data : jsval;
  error : option validation_error
}.

(** [error?.type === t]. *)
Definition error_has_type (e : option validation_error) (t : jsstring) : bool :=
  match e with
  | Some err => jsstring_eqb (error_type err) t
  | None => false
  end.

(** The [indexerConfig] argument of [registerFunction]. *)
Record indexer_config : Type := {
  startBlockHeight : jsval;
  filter : jsval
}.

(** The object sent with "register-function" and shown in the modal:
    [{ indexerName, code, schema, blockHeight, contractFilter }]. *)
Record registration : Type := {
  reg_indexerName : jsstring;
  reg_code : jsstring;
  reg_schema : jsval;
  reg_blockHeight : jsval;
  reg_contractFilter : jsval
}.

(** What [queryIndexerFunctionDetails] finds: [{ code, schema }]. *)
Record function_details : Type := {
  details_code : jsval;
  details_schema : jsval
}.

(** The result of [reformatAll]. *)
Record reformatted : Type := {
  formattedCode : jsval;
  formattedSchema : jsval
}.

(** What the handlers do that can be observed: state updates of the
    component, messages to the host page, the console. *)
Inductive ui_action : Type :=
| SetError (message : option jsstring)
| SetIndexingCode (v : jsval)
| SetSchema (v : jsval)
| SetSchemaTypes (v : jsval)
| SetOriginalIndexingCode (v : jsval)
| SetOriginalSQLCode (v : jsval)
| SetAccountId (accountId : jsstring)
| SetShowPublishModal (b : bool)
| SetShowResetCodeModel (b : bool)
| ShowModal (message : jsstring) (data : registration)
| Request (type : jsstring) (payload : registration)
| QueryIndexerFunctionDetails (accountId indexerName : jsstring)
| ConsoleLog (e : exn).

(** Reading a property of [null] or [undefined], or calling what is not a
    function. *)
Definition TypeError : exn := OtherError (js "TypeError").

(** *** The keys of the local storage *)

(** [indexerDetails.indexerName || "new"]: the empty name is falsy. *)
Definition name_or_new (d : indexer_details) : jsstring :=
  if jsstring_eqb (indexerName d) [] then js "new" else indexerName d.

Definition DEBUG_LIST_STORAGE_KEY (d : indexer_details) : jsstring :=
  js "QueryAPI:debugList:" ++ accountId d ++ js "#" ++ name_or_new d.

Definition SCHEMA_STORAGE_KEY (d : indexer_details) : jsstring :=
  js "QueryAPI:Schema:" ++ accountId d ++ js "#" ++ name_or_new d.

Definition SCHEMA_TYPES_STORAGE_KEY (d : indexer_details) : jsstring :=
  js "QueryAPI:Schema:Types:" ++ accountId d ++ js "#" ++ name_or_new d.

Definition CODE_STORAGE_KEY (d : indexer_details) : jsstring :=
  js "QueryAPI:Code:" ++ accountId d ++ js "#" ++ name_or_new d.

(** [if (v)] on what [localStorage.getItem] returns: [null] for a missing
    key and the empty text are falsy. *)
Definition saved (v : option jsstring) : option jsstring :=
  match v with
  | Some [] => None
  | _ => v
  end.

(** The effect that saves the schema and the code, on a storage with room
    for them. *)
Definition save_draft (d : indexer_details) (schema indexingCode : jsstring)
    (localStorage : gmap jsstring jsstring) : gmap jsstring jsstring :=
  <[CODE_STORAGE_KEY d := indexingCode]>
    (<[SCHEMA_STORAGE_KEY d := schema]> localStorage).

(** The effect that reads the saved schema and code back. *)
Definition restore_draft (d : indexer_details)
    (localStorage : gmap jsstring jsstring) : list ui_action :=
  let savedSchema := localStorage !! SCHEMA_STORAGE_KEY d in
  let savedCode := localStorage !! CODE_STORAGE_KEY d in
  match saved savedSchema with
  | Some text => [SetSchema (JStr text)]
  | None => []
  end
  ++ match saved savedCode with
     | Some text => [SetIndexingCode (JStr text)]
     | None => []
     end.

(** The value of the state [heights]: an array, or the text that the
    storage gave back. *)
Inductive heights_value : Type :=
| HeightsArray (l : list jsval)
| HeightsText (s : jsstring).

Section Heights.

(** The text of a number. *)
Variable NumberToString : jsnum -> jsstring.

(** The text of an element in [Array.prototype.join]. *)
Definition element_text (v : jsval) : jsstring :=
  match v with
  | JUndefined | JNull => []
  | JBool true => js "true"
  | JBool false => js "false"
  | JNum n => NumberToString n
  | JStr s => s
  end.

(** The text of an array: its elements joined by commas. *)
Fixpoint join_comma (l : list jsval) : jsstring :=
  match l with
  | [] => []
  | [x] => element_text x
  | x :: rest => element_text x ++ js "," ++ join_comma rest
  end.

(** The text that [localStorage.setItem] stores for a value of [heights]. *)
Definition heights_text (h : heights_value) : jsstring :=
  match h with
  | HeightsArray l => join_comma l
  | HeightsText s => s
  end.

(** The effect that saves the debug list. *)
Definition save_heights (d : indexer_details) (h : heights_value)
    (localStorage : gmap jsstring jsstring) : gmap jsstring jsstring :=
  <[DEBUG_LIST_STORAGE_KEY d := heights_text h]> localStorage.

End Heights.

(** The initial value of [heights]:
    [localStorage.getItem(DEBUG_LIST_STORAGE_KEY) || []]. *)
Definition initial_heights (d : indexer_details)
    (localStorage : gmap jsstring jsstring) : heights_value :=
  match saved (localStorage !! DEBUG_LIST_STORAGE_KEY d) with
  | Some text => HeightsText text
  | None => HeightsArray []
  end.

Section Handlers.

Context {W : Type}.

(** The texts of [constants/Strings]. *)
Variable CODE_FORMATTING_ERROR_MESSAGE : jsstring.
Variable SCHEMA_FORMATTING_ERROR_MESSAGE : jsstring.
Variable SCHEMA_TYPE_GENERATION_ERROR_MESSAGE : jsstring.
Variable FORMATTING_ERROR_TYPE : jsstring.
Variable TYPE_GENERATION_ERROR_TYPE : jsstring.
Variable INDEXER_REGISTER_TYPE_GENERATION_ERROR : jsstring.

(** The validators of [utils/validators]. *)
Variable validateJSCode : jsval -> validation.
Variable validateSQLSchema : jsval -> validation.

(** [formatIndexingCode] and [wrapCode] of [utils/formatters], and the
    defaults they export. *)
Variable formatIndexingCode : jsstring -> result jsval.
Variable wrapCode : jsval -> result jsval.
Variable defaultCode defaultSchema defaultSchemaTypes : jsval.

(** [String.prototype.toLowerCase]. *)
Variable toLowerCase : jsstring -> jsstring.

(** [queryIndexerFunctionDetails]; [None] is a result that is [== null]. *)
Variable queryIndexerFunctionDetails :
  jsstring -> jsstring -> W -> result (option function_details) * W.

(** The state and the context of the component. *)
Variable self : editor.
Variable currentUserAccountId : jsstring.
Variable isCreateNewIndexer : bool.
Variable originalIndexingCode originalSQLCode : jsval.

Local Open Scope js_scope.

Definition reformatAll (indexingCode schema : jsval) : M ui_action W reformatted :=
  let formattedCode := data (validateJSCode indexingCode) in
  let codeError := error (validateJSCode indexingCode) in
  let formattedSchema := data (validateSQLSchema schema) in
  let schemaError := error (validateSQLSchema schema) in
  match codeError with
  | Some _ =>
      let formattedCode := indexingCode in
      _ <- emit (SetError (Some CODE_FORMATTING_ERROR_MESSAGE)) ;;
      ret {| formattedCode := formattedCode; formattedSchema := formattedSchema |}
  | None =>
      if error_has_type schemaError FORMATTING_ERROR_TYPE then
        let formattedSchema := schema in
        _ <- emit (SetError (Some SCHEMA_FORMATTING_ERROR_MESSAGE)) ;;
        ret {| formattedCode := formattedCode; formattedSchema := formattedSchema |}
      else if error_has_type schemaError TYPE_GENERATION_ERROR_TYPE then
        let formattedSchema := schema in
        _ <- emit (SetError (Some SCHEMA_TYPE_GENERATION_ERROR_MESSAGE)) ;;
        ret {| formattedCode := formattedCode; formattedSchema := formattedSchema |}
      else
        _ <- emit (SetError None) ;;
        ret {| formattedCode := formattedCode; formattedSchema := formattedSchema |}
  end.

Definition handleFormating : M ui_action W unit :=
  r <- reformatAll (JStr (indexingCode self)) (JStr (schema self)) ;;
  _ <- emit (SetIndexingCode (formattedCode r)) ;;
  emit (SetSchema (formattedSchema r)).

Definition registerFunction (indexerName : jsstring) (indexerConfig : indexer_config)
  : M ui_action W unit :=
  let validatedSchema := data (validateSQLSchema (JStr (schema self))) in
  let schemaValidationError := error (validateSQLSchema (JStr (schema self))) in
  let validatedCode := data (validateJSCode (JStr (indexingCode self))) in
  let codeValidationError := error (validateJSCode (JStr (indexingCode self))) in
  match codeValidationError with
  | Some _ => emit (SetError (Some CODE_FORMATTING_ERROR_MESSAGE)) (* return *)
  | None =>
      innerCode <- lift (match validatedCode with
                         | JStr text =>
                             match match_getBlock text with
                             | Some group => Ok group
                             | None => Throw TypeError
                             end
                         | _ => Throw TypeError
                         end) ;;
      let indexerName := replaceAll indexerName (js " ") (js "_") in
      let registration :=
        {| reg_indexerName := indexerName;
           reg_code := innerCode;
           reg_schema := validatedSchema;
           reg_blockHeight := startBlockHeight indexerConfig;
           reg_contractFilter := filter indexerConfig |} in
      if error_has_type schemaValidationError FORMATTING_ERROR_TYPE then
        emit (SetError (Some SCHEMA_FORMATTING_ERROR_MESSAGE)) (* return *)
      else if error_has_type schemaValidationError TYPE_GENERATION_ERROR_TYPE then
        emit (ShowModal INDEXER_REGISTER_TYPE_GENERATION_ERROR registration)
      else
        _ <- emit (Request (js "register-function") registration) ;;
        emit (SetShowPublishModal false)
  end.

Definition forkIndexer (indexerName : jsstring) : M ui_action W unit :=
  let code := indexingCode self in
  _ <- emit (SetAccountId currentUserAccountId) ;;
  let prevAccountId := replaceAll (accountId (indexerDetails self)) (js ".") (js "_") in
  let newAccountId := replaceAll currentUserAccountId (js ".") (js "_") in
  let prevIndexerName :=
    toLowerCase
      (trim (replaceAll (Editor.indexerName (indexerDetails self)) (js "-") (js "_"))) in
  let newIndexerName :=
    toLowerCase (trim (replaceAll indexerName (js "-") (js "_"))) in
  let code := replaceAll code prevAccountId newAccountId in
  let code := replaceAll code prevIndexerName newIndexerName in
  formatted <- lift (formatIndexingCode code) ;;
  emit (SetIndexingCode formatted).

Definition handleReload : M ui_action W unit :=
  if isCreateNewIndexer then
    _ <- emit (SetShowResetCodeModel false) ;;
    _ <- emit (SetIndexingCode originalIndexingCode) ;;
    _ <- emit (SetSchema originalSQLCode) ;;
    emit (SetSchemaTypes defaultSchemaTypes) (* return *)
  else
    let accountId := accountId (indexerDetails self) in
    let indexerName := Editor.indexerName (indexerDetails self) in
    data <- call (QueryIndexerFunctionDetails accountId indexerName)
              (queryIndexerFunctionDetails accountId indexerName) ;;
    _ <- match data with
         | None =>
             _ <- emit (SetIndexingCode defaultCode) ;;
             _ <- emit (SetSchema defaultSchema) ;;
             emit (SetSchemaTypes defaultSchemaTypes)
         | Some data =>
             try_catch
               (unformatted_wrapped_indexing_code <- lift (wrapCode (details_code data)) ;;
                let unformatted_schema := details_schema data in
                _ <- (if negb (strict_eq unformatted_wrapped_indexing_code JNull) then
                        _ <- emit (SetOriginalIndexingCode unformatted_wrapped_indexing_code) ;;
                        emit (SetIndexingCode unformatted_wrapped_indexing_code)
                      else ret tt) ;;
                _ <- (if negb (strict_eq unformatted_schema JNull) then
                        _ <- emit (SetOriginalSQLCode unformatted_schema) ;;
                        emit (SetSchema unformatted_schema)
                      else ret tt) ;;
                r <- reformatAll unformatted_wrapped_indexing_code unformatted_schema ;;
                _ <- emit (SetIndexingCode (formattedCode r)) ;;
                emit (SetSchema (formattedSchema r)))
               (fun formattingError => emit (ConsoleLog formattingError))
         end ;;
    emit (SetShowResetCodeModel false).

End Handlers.

(** The messages to the host page in a trace. *)
Definition requests_of (tr : list ui_action) : list (jsstring * registration) :=
  omap (fun a => match a with
                 | Request type payload => Some (type, payload)
                 | _ => None
                 end) tr.

(** The values given to [setShowResetCodeModel] in a trace. *)
Definition reset_modal_updates (tr : list ui_action) : list bool :=
  omap (fun a => match a with
                 | SetShowResetCodeModel b => Some b
                 | _ => None
                 end) tr.

End EditorUI.

(** ** The other handlers on concrete inputs *)

Module EditorUIDemo.
Import Editor EditorUI.

(** A validator that accepts every text and returns it as it is. *)
Definition accept_demo (v : jsval) : validation :=
  {| data := v; error := None |}.

(** A validator that rejects every text with a formatting error. *)
Definition reject_demo (v : jsval) : validation :=
  {| data := JUndefined;
     error := Some {| error_type := js "FORMATTING_ERROR";
                      error_message := js "Unexpected token" |} |}.

(** A formatter that returns the code as it is. *)
Definition formatIndexingCode_demo (text : jsstring) : result jsval :=
  Ok (JStr text).

(** [toLowerCase] on the letters A to Z. *)
Definition toLowerCase_demo (s : jsstring) : jsstring :=
  List.map (fun c => if ((65 <=? c) && (c <=? 90))%N then (c + 32)%N else c) s.

(** The decimal text of an integer. *)
Definition NumberToString_demo (n : jsnum) : jsstring :=
  match n with
  | NaN => js "NaN"
  | Int z => js (pretty z)
  end.

(** An editor that holds a wrapped indexer function. *)
Definition editor_wrapped : editor :=
  {| indexerDetails := {| accountId := js "alice.near"; indexerName := js "feed" |};
     heights := [];
     indexingCode :=
       js "async function getBlock(block: Block) { const h = block.blockHeight; }";
     schema := js "CREATE TABLE posts(id INT, text TEXT)" |}.

(** An editor whose code names a table of the account's namespace. *)
Definition editor_tables : editor :=
  {| indexerDetails := {| accountId := js "alice.near"; indexerName := js "feed" |};
     heights := [];
     indexingCode := js "await context.graphql(mutation, { table: 'alice_near_posts' });";
     schema := js "CREATE TABLE posts(id INT, text TEXT)" |}.

Definition config_demo : indexer_config :=
  {| startBlockHeight := JNum (Int 100); filter := JStr (js "social.near") |}.

End EditorUIDemo.

(** * Properties *)

(** ** Strings: [indexOf] and the replacement of non-alphanumerics *)

Module JsStringFacts.

Lemma startsWith_prefix (pat s : jsstring) :
  startsWith pat s = true <-> exists post, s = pat ++ post.
Proof.
  revert s. induction pat as [|p pat IH]; intros s; simpl.
  - split; [intros _; by exists s | done].
  - destruct s as [|c s]; simpl.
    + split; [done | intros [post H]; discriminate H].
    + rewrite andb_true_iff, N.eqb_eq, IH. split.
      * intros [-> [post ->]]. by exists post.
      * intros [post H]. injection H as -> ->. split; [done | by exists post].
Qed.

Lemma indexOf_from_head (s pat : jsstring) (k : Z) :
  startsWith pat s = true -> indexOf_from s pat k = k.
Proof. intros E. destruct s; simpl; by rewrite E. Qed.

Lemma indexOf_from_found (s pat : jsstring) (k : Z) :
  0 <= k -> 0 <= indexOf_from s pat k ->
  exists pre post, s = pre ++ pat ++ post.
Proof.
  revert k. induction s as [|c s IH]; intros k Hk; simpl.
  - destruct (startsWith pat []) eqn:E; [|lia].
    intros _. apply startsWith_prefix in E as [post E]. by exists [], post.
  - destruct (startsWith pat (c :: s)) eqn:E.
    + intros _. apply startsWith_prefix in E as [post E]. by exists [], post.
    + intros H. destruct (IH (k + 1)) as (pre & post & ->); [lia | done |].
      by exists (c :: pre), post.
Qed.

Lemma indexOf_from_occurs (pre pat post : jsstring) (k : Z) :
  0 <= k -> 0 <= indexOf_from (pre ++ pat ++ post) pat k.
Proof.
  revert k. induction pre as [|c pre IH]; intros k Hk.
  - rewrite indexOf_from_head; [done |].
    apply startsWith_prefix. by exists post.
  - simpl. destruct (startsWith pat (c :: pre ++ pat ++ post)); [done |].
    apply IH. lia.
Qed.

Example indexOf_found :
  indexOf (js "await context.db.Posts.insert(row)") (js "context.db") = 6.
Proof. reflexivity. Qed.

Example indexOf_first_occurrence : indexOf (js "abab") (js "b") = 1.
Proof. reflexivity. Qed.

Example indexOf_absent :
  indexOf (js "await context.set('height', h)") (js "context.db") = -1.
Proof. reflexivity. Qed.

Example indexOf_empty_pattern : indexOf (js "abc") [] = 0.
Proof. reflexivity. Qed.

(** The result is [-1] or an index of the string. *)
Lemma indexOf_from_range (s pat : jsstring) (k : Z) :
  indexOf_from s pat k = -1
  \/ k <= indexOf_from s pat k <= k + Z.of_nat (length s).
Proof.
  revert k. induction s as [|c s IH]; intros k; simpl.
  - destruct (startsWith pat []); [right; lia | by left].
  - destruct (startsWith pat (c :: s)); [right; lia |].
    destruct (IH (k + 1)) as [-> | H]; [by left | right; lia].
Qed.

(** [s.indexOf(pat) >= 0] says that [pat] is a substring of [s]. *)
Lemma indexOf_nonneg_iff (s pat : jsstring) :
  0 <= indexOf s pat <-> exists pre post, s = pre ++ pat ++ post.
Proof.
  split.
  - by apply indexOf_from_found.
  - intros (pre & post & ->). by apply indexOf_from_occurs.
Qed.

Lemma underscore_not_alnum : is_alnum underscore = false.
Proof. reflexivity. Qed.

Lemma normalize_ident (c : N) : is_ident_char (normalize c) = true.
Proof.
  unfold is_ident_char, normalize. destruct (is_alnum c) eqn:E.
  - by rewrite E.
  - by rewrite underscore_not_alnum.
Qed.

Lemma normalize_alnum (c : N) : is_alnum c = true -> normalize c = c.
Proof. unfold normalize. by intros ->. Qed.

Lemma normalize_other (c : N) : is_alnum c = false -> normalize c = underscore.
Proof. unfold normalize. by intros ->. Qed.

Lemma normalize_eq_iff (c1 c2 : N) :
  normalize c1 = normalize c2 <-> same_class c1 c2.
Proof.
  unfold normalize, same_class. split.
  - destruct (is_alnum c1) eqn:E1, (is_alnum c2) eqn:E2; intros H; auto.
    + subst c1. rewrite underscore_not_alnum in E1. discriminate.
    + subst c2. rewrite underscore_not_alnum in E2. discriminate.
  - intros [-> | [-> ->]]; done.
Qed.

Lemma replace_non_alnum_length (s : jsstring) :
  length (replace_non_alnum s) = length s.
Proof. apply length_map. Qed.

Lemma replace_non_alnum_lookup (s : jsstring) (i : nat) :
  replace_non_alnum s !! i = normalize <$> s !! i.
Proof. unfold replace_non_alnum. by rewrite <- list_lookup_fmap. Qed.

Lemma replace_non_alnum_ident (s : jsstring) :
  Forall (fun c => is_ident_char c = true) (replace_non_alnum s).
Proof.
  induction s as [|c s IH]; simpl; constructor; [apply normalize_ident | done].
Qed.

Lemma replace_non_alnum_eq_iff (s1 s2 : jsstring) :
  replace_non_alnum s1 = replace_non_alnum s2 <-> Forall2 same_class s1 s2.
Proof.
  revert s2. induction s1 as [|c1 s1 IH]; intros [|c2 s2]; simpl.
  - split; [constructor | done].
  - split; [done | intros H; inversion H].
  - split; [done | intros H; inversion H].
  - split.
    + intros H. injection H as Hc Hs. constructor.
      * by apply normalize_eq_iff.
      * by apply IH.
    + intros H. inversion H as [|? ? ? ? Hc Hs]; subst. f_equal.
      * by apply normalize_eq_iff.
      * by apply IH.
Qed.

End JsStringFacts.

(** ** The monad *)

Module CompletionFacts.

Lemma prepend_nil {E W A} (out : result A * list E * W) : prepend [] out = out.
Proof. by destruct out as [[r tr] w]. Qed.

Lemma prepend_app {E W A} (e1 e2 : list E) (out : result A * list E * W) :
  prepend e1 (prepend e2 out) = prepend (e1 ++ e2) out.
Proof. destruct out as [[r tr] w]. simpl. by rewrite app_assoc. Qed.

Lemma completion_of_prepend {E W A} (evs : list E) (out : result A * list E * W) :
  completion_of (prepend evs out) = completion_of out.
Proof. by destruct out as [[r tr] w]. Qed.


Lemma world_of_prepend {E W A} (evs : list E) (out : result A * list E * W) :
  world_of (prepend evs out) = world_of out.
Proof. by destruct out as [[r tr] w]. Qed.

Lemma bind_ok {E W A B} (m : M E W A) (k : A -> M E W B) w a tr w' :
  m w = (Ok a, tr, w') -> bind m k w = prepend tr (k a w').
Proof. unfold bind. by intros ->. Qed.

Lemma bind_throw {E W A B} (m : M E W A) (k : A -> M E W B) w e tr w' :
  m w = (Throw e, tr, w') -> bind m k w = (Throw e, tr, w').
Proof. unfold bind. by intros ->. Qed.

Lemma for_of_cons {E W A} (x : A) (xs : list A) (body : A -> M E W unit) w :
  for_of (x :: xs) body w = bind (body x) (fun _ => for_of xs body) w.
Proof. reflexivity. Qed.

End CompletionFacts.

(** ** The queue consumer *)

Module ConsumerFacts.
Import QueueHandler CompletionFacts.

Section Consumer.

Context {W Mutations : Type}.
Variable JSON_parse : jsstring -> result queue_message.
Variable runFunctions :
  Z -> gmap jsstring function_config -> bool -> run_options ->
  W -> result Mutations * W.

Local Abbreviation consumer_record := (consumer_record JSON_parse runFunctions).
Local Abbreviation consumer := (consumer JSON_parse runFunctions).
Local Abbreviation requests := (requests JSON_parse).
Local Abbreviation parsed_prefix := (parsed_prefix JSON_parse).
Local Abbreviation first_parse_error := (first_parse_error JSON_parse).
Local Abbreviation perform := (perform runFunctions).
Local Abbreviation run_all := (run_all runFunctions).

(** *** One record *)

Lemma consumer_record_malformed record e (w : W) :
  JSON_parse (body record) = Throw e ->
  consumer_record record w = (Throw e, [], w).
Proof. intros H. unfold QueueHandler.consumer_record, bind, lift. by rewrite H. Qed.

Lemma consumer_record_marker record m (w : W) :
  JSON_parse (body record) = Ok m -> has_marker m = true ->
  consumer_record record w = (Ok tt, [], w).
Proof.
  intros H Hm. unfold QueueHandler.consumer_record, bind, lift. rewrite H.
  unfold has_marker in Hm. simpl. by rewrite Hm.
Qed.

Lemma consumer_record_returns record m mu (w w' : W) :
  JSON_parse (body record) = Ok m -> has_marker m = false ->
  perform (request m) w = (Ok mu, w') ->
  consumer_record record w = (Ok tt, [RunFunctions (request m)], w').
Proof.
  intros H Hm Hr. unfold QueueHandler.consumer_record, bind, lift. rewrite H.
  unfold has_marker in Hm. simpl. rewrite Hm.
  unfold try_catch, bind, call. unfold QueueHandler.perform in Hr. simpl in Hr.
  by rewrite Hr.
Qed.

Lemma consumer_record_throws record m e (w w' : W) :
  JSON_parse (body record) = Ok m -> has_marker m = false ->
  perform (request m) w = (Throw e, w') ->
  consumer_record record w
  = (Ok tt, [RunFunctions (request m); ConsoleError e], w').
Proof.
  intros H Hm Hr. unfold QueueHandler.consumer_record, bind, lift. rewrite H.
  unfold has_marker in Hm. simpl. rewrite Hm.
  unfold try_catch, bind, call. unfold QueueHandler.perform in Hr. simpl in Hr.
  by rewrite Hr.
Qed.

Lemma consumer_cons record rest (w : W) :
  consumer {| Records := record :: rest |} w
  = bind (consumer_record record) (fun _ => consumer {| Records := rest |}) w.
Proof. reflexivity. Qed.

(** A record that ends normally: the loop goes on with the next one. *)
Lemma consumer_step record rest tr (w w' : W) :
  consumer_record record w = (Ok tt, tr, w') ->
  consumer {| Records := record :: rest |} w
  = prepend tr (consumer {| Records := rest |} w').
Proof. intros H. rewrite consumer_cons. by rewrite (bind_ok _ _ _ _ _ _ H). Qed.

(** What one record can do. *)
Lemma consumer_record_cases record (w : W) :
  (exists e, JSON_parse (body record) = Throw e
             /\ consumer_record record w = (Throw e, [], w))
  \/ (exists m tr w',
        JSON_parse (body record) = Ok m
        /\ consumer_record record w = (Ok tt, tr, w')
        /\ ((has_marker m = true /\ tr = [] /\ w' = w)
            \/ (has_marker m = false
                /\ exists r, perform (request m) w = (r, w')
                   /\ tr = RunFunctions (request m)
                           :: match r with
                              | Ok _ => []
                              | Throw e => [ConsoleError e]
                              end))).
Proof.
  destruct (JSON_parse (body record)) as [m|e] eqn:Hp.
  - right. destruct (has_marker m) eqn:Hm.
    + exists m, [], w. rewrite (consumer_record_marker _ _ _ Hp Hm).
      split; [done | split; [done |]]. by left.
    + destruct (perform (request m) w) as [[mu|e] w'] eqn:Hr.
      * exists m, [RunFunctions (request m)], w'.
        rewrite (consumer_record_returns _ _ _ _ _ Hp Hm Hr).
        split; [done | split; [done |]]. right. split; [done |]. by eexists.
      * exists m, [RunFunctions (request m); ConsoleError e], w'.
        rewrite (consumer_record_throws _ _ _ _ _ Hp Hm Hr).
        split; [done | split; [done |]]. right. split; [done |]. by eexists.
  - left. exists e. by rewrite (consumer_record_malformed _ _ _ Hp).
Qed.

(** *** A whole batch *)



(** The consumer is the sequence of the invocations requested by the
    records it reaches, each awaited, with the thrown errors written to the
    console; how it ends depends on [JSON.parse] alone. *)
Lemma consumer_characterised records (w : W) :
  exists tr,
    consumer {| Records := records |} w
    = (match first_parse_error records with
       | None => Ok tt
       | Some e => Throw e
       end, tr, (run_all (requests (parsed_prefix records)) w).2)
    /\ invocations tr = requests (parsed_prefix records)
    /\ console_errors tr = (run_all (requests (parsed_prefix records)) w).1.
Proof.
  revert w. induction records as [|record rest IH]; intros w.
  - by exists [].
  - destruct (consumer_record_cases record w)
      as [(e & Hp & Hc) | (m & tr & w' & Hp & Hc & Hcase)].
    { exists []. rewrite consumer_cons, (bind_throw _ _ _ _ _ _ Hc).
      simpl. by rewrite Hp. }
    rewrite (consumer_step _ _ _ _ _ Hc). simpl. rewrite Hp. simpl. rewrite Hp.
    destruct Hcase as [(Hm & -> & ->) | (Hm & r & Hr & ->)]; rewrite Hm.
    + destruct (IH w) as (tr' & -> & Hi & He). by exists tr'.
    + destruct (IH w') as (tr' & -> & Hi & He). simpl. rewrite Hr.
      destruct (run_all (requests (parsed_prefix rest)) w') as [es w2] eqn:Hall'.
      eexists. split; [reflexivity |]. simpl in *.
      destruct r as [mu|e]; simpl; rewrite Hi, He; done.
Qed.

Lemma parsed_prefix_all records :
  Forall (fun record => is_Ok (JSON_parse (body record)) = true) records ->
  parsed_prefix records = records.
Proof.
  induction 1 as [|record rest Hrec _ IH]; simpl; [done |].
  by rewrite Hrec, IH.
Qed.

(** The promise of the consumer is fulfilled only when every body parsed. *)
Lemma consumer_fulfilled_parsed records (w : W) :
  completion_of (consumer {| Records := records |} w) = Ok tt ->
  Forall (fun record => is_Ok (JSON_parse (body record)) = true) records.
Proof.
  revert w. induction records as [|record rest IH]; intros w H; [constructor |].
  destruct (consumer_record_cases record w)
    as [(e & Hp & Hc) | (m & tr & w' & Hp & Hc & _)].
  - rewrite consumer_cons, (bind_throw _ _ _ _ _ _ Hc) in H. discriminate.
  - rewrite (consumer_step _ _ _ _ _ Hc), completion_of_prepend in H.
    constructor; [by rewrite Hp | by eapply IH].
Qed.

(** The only error that leaves the consumer is one of [JSON.parse]. *)
Lemma consumer_rejected_malformed records e (w : W) :
  completion_of (consumer {| Records := records |} w) = Throw e ->
  exists record, In record records /\ JSON_parse (body record) = Throw e.
Proof.
  revert w. induction records as [|record rest IH]; intros w H; [discriminate |].
  destruct (consumer_record_cases record w)
    as [(e' & Hp & Hc) | (m & tr & w' & Hp & Hc & _)].
  - rewrite consumer_cons, (bind_throw _ _ _ _ _ _ Hc) in H.
    injection H as ->. exists record. split; [by left | done].
  - rewrite (consumer_step _ _ _ _ _ Hc), completion_of_prepend in H.
    destruct (IH _ H) as (r & Hin & Hr). exists r. split; [by right | done].
Qed.


Lemma request_in_requests records record m :
  In record records -> JSON_parse (body record) = Ok m ->
  has_marker m = false -> In (request m) (requests records).
Proof.
  induction records as [|r rest IH]; intros Hin Hp Hm; [destruct Hin |].
  simpl. destruct Hin as [-> | Hin].
  - rewrite Hp, Hm. by left.
  - destruct (JSON_parse (body r)) as [m'|]; [destruct (has_marker m') |];
      try right; by apply IH.
Qed.

(** *** The claims about the consumer *)

(** C1.  A message whose code contains the legacy marker ['context.db'] is
    consumed without any call of [runFunctions]: the record leaves no
    action at all, ends normally and leaves the world as it was, and the
    loop carries on with the next record. *)
Theorem consumer_skips_marked_message record rest m (w : W) :
  JSON_parse (body record) = Ok m ->
  (exists pre post, code (indexer_function m) = pre ++ marker ++ post) ->
  consumer {| Records := [record] |} w = (Ok tt, [], w)
  /\ consumer {| Records := record :: rest |} w
     = consumer {| Records := rest |} w.
Proof.
  intros Hp Hsub.
  assert (Hm : has_marker m = true).
  { unfold has_marker. apply Z.leb_le. by apply JsStringFacts.indexOf_nonneg_iff. }
  pose proof (consumer_record_marker record m w Hp Hm) as Hc.
  split.
  - by rewrite (consumer_step _ _ _ _ _ Hc).
  - by rewrite (consumer_step _ _ _ _ _ Hc), prepend_nil.
Qed.

(** C2, as amended.  When [runFunctions] (called with [provision] set)
    throws, be it a provisioning failure or any other error, the consumer
    catches the error, writes it to the console and carries on with the
    next record; whether the batch is acknowledged does not depend on it. *)
Theorem consumer_swallows_failed_run record rest m e (w w' : W) :
  JSON_parse (body record) = Ok m ->
  has_marker m = false ->
  runFunctions (block_height m) (inv_functions (request m)) (is_historical m)
    {| imperative := true; provision := true |} w = (Throw e, w') ->
  consumer {| Records := record :: rest |} w
  = prepend [RunFunctions (request m); ConsoleError e]
      (consumer {| Records := rest |} w')
  /\ acknowledged (consumer {| Records := record :: rest |} w)
     = acknowledged (consumer {| Records := rest |} w').
Proof.
  intros Hp Hm Hr.
  pose proof (consumer_record_throws record m e w w' Hp Hm Hr) as Hc.
  rewrite (consumer_step _ _ _ _ _ Hc). split; [done |].
  unfold acknowledged. by rewrite completion_of_prepend.
Qed.

(** C4.  Errors thrown by invocations never leave the loop.  Whatever
    [runFunctions] does, how the consumer ends is decided by [JSON.parse]
    alone (it ends normally when every body parses); every record up to
    the first body that does not parse has its invocation made, in order,
    also after an invocation that threw; and the errors written to the
    console are exactly the errors the invocations threw. *)
Theorem consumer_contains_run_failures records (w : W) :
  completion_of (consumer {| Records := records |} w)
  = match first_parse_error records with
    | None => Ok tt
    | Some e => Throw e
    end
  /\ invocations (trace_of (consumer {| Records := records |} w))
     = requests (parsed_prefix records)
  /\ console_errors (trace_of (consumer {| Records := records |} w))
     = (run_all (requests (parsed_prefix records)) w).1
  /\ world_of (consumer {| Records := records |} w)
     = (run_all (requests (parsed_prefix records)) w).2.
Proof.
  destruct (consumer_characterised records w) as (tr & -> & Hi & He).
  unfold completion_of, trace_of, world_of. simpl. by rewrite Hi, He.
Qed.


End Consumer.

(** *** The claims on the concrete batch *)

Import QueueDemo.

Lemma consumer_skips_marked_message_demo :
  consumer parse_demo runFunctions_demo {| Records := [record102] |} []
  = (Ok tt, [], [])
  /\ consumer parse_demo runFunctions_demo
       {| Records := [record102; record101] |} []
     = consumer parse_demo runFunctions_demo {| Records := [record101] |} [].
Proof.
  apply (consumer_skips_marked_message parse_demo runFunctions_demo
           record102 [record101] message102 []).
  - vm_compute. reflexivity.
  - exists (js "await "), (js ".Posts.insert({id: block.blockHeight});").
    vm_compute. reflexivity.
Defined.

(** C2, as stated, fails: provisioning fails for the message of height 100,
    and yet the consumer ends normally (the batch is acknowledged, nothing
    is thrown to the caller) after going on to the message of height 101. *)
Lemma provisioning_failure_is_skipped :
  perform runFunctions_demo (request message100) []
  = (Throw ProvisioningFailed, [])
  /\ consumer parse_demo runFunctions_demo
       {| Records := [record100; record101] |} []
     = (Ok tt,
        [RunFunctions (request message100); ConsoleError ProvisioningFailed;
         RunFunctions (request message101)],
        [101])
  /\ acknowledged (consumer parse_demo runFunctions_demo
                     {| Records := [record100; record101] |} []) = true.
Proof. repeat split; vm_compute; reflexivity. Qed.

Lemma consumer_swallows_failed_run_demo :
  consumer parse_demo runFunctions_demo
    {| Records := [record100; record101] |} []
  = prepend [RunFunctions (request message100); ConsoleError ProvisioningFailed]
      (consumer parse_demo runFunctions_demo {| Records := [record101] |} [])
  /\ acknowledged (consumer parse_demo runFunctions_demo
                     {| Records := [record100; record101] |} [])
     = acknowledged (consumer parse_demo runFunctions_demo
                       {| Records := [record101] |} []).
Proof.
  apply (consumer_swallows_failed_run parse_demo runFunctions_demo
           record100 [record101] message100 ProvisioningFailed [] []);
    vm_compute; reflexivity.
Defined.

End ConsumerFacts.

(** ** The storage-namespace naming rule *)

Module NamespaceFacts.
Import Editor JsStringFacts.

Example schemaName_alice :
  schemaName {| accountId := js "alice.near"; indexerName := js "my-feed v2" |}
  = js "alice_near_my_feed_v2".
Proof. reflexivity. Qed.

(** C6.  The namespace name is a function of [accountId] and [indexerName]
    alone: the two strings joined by ['_'], with every code unit outside
    [a-zA-Z0-9] replaced by the one separator ['_'] and every other code
    unit kept in its place.  The name has as many code units as the joined
    string, is not empty, and is made of [a-zA-Z0-9_] only. *)
Theorem schemaName_is_normalized_identifier (d : indexer_details) :
  schemaName d = replace_non_alnum (accountId d ++ js "_" ++ indexerName d)
  /\ length (schemaName d)
     = (length (accountId d) + 1 + length (indexerName d))%nat
  /\ (forall i : nat,
        schemaName d !! i
        = normalize <$> (accountId d ++ js "_" ++ indexerName d) !! i)
  /\ Forall (fun c => is_ident_char c = true) (schemaName d)
  /\ schemaName d <> [].
Proof.
  unfold schemaName. repeat split.
  - rewrite replace_non_alnum_length, !length_app. simpl. lia.
  - intros i. apply replace_non_alnum_lookup.
  - apply replace_non_alnum_ident.
  - intros H. apply (f_equal length) in H.
    rewrite replace_non_alnum_length, !length_app in H. simpl in H. lia.
Qed.

(** C3, as amended.  Two identities get the same namespace name exactly
    when their joined strings [accountId ++ "_" ++ indexerName] have the
    same length and, position by position, code units that are equal or
    both outside [a-zA-Z0-9]. *)
Theorem schemaName_collision_iff (d1 d2 : indexer_details) :
  schemaName d1 = schemaName d2
  <-> Forall2 same_class
        (accountId d1 ++ js "_" ++ indexerName d1)
        (accountId d2 ++ js "_" ++ indexerName d2).
Proof. apply replace_non_alnum_eq_iff. Qed.

(** C3, as stated, fails: the accounts "a.b" and "a_b" differ, and the
    same indexer name under them gets the same namespace name. *)
Lemma namespace_names_collide :
  {| accountId := js "a.b"; indexerName := js "feed" |}
  <> {| accountId := js "a_b"; indexerName := js "feed" |}
  /\ schemaName {| accountId := js "a.b"; indexerName := js "feed" |}
     = schemaName {| accountId := js "a_b"; indexerName := js "feed" |}.
Proof. split; [discriminate | reflexivity]. Qed.

End NamespaceFacts.

(** ** The debug/replay surface *)

Module EditorFacts.
Import Editor CompletionFacts.

Section ExecuteIndexerFunction.

Context {W : Type}.
Variable StringToNumber : jsstring -> jsnum.
Variable runner_executeIndexerFunctionOnHeights :
  list jsval -> jsstring -> jsstring -> jsstring -> jsval -> W -> result unit * W.
Variable runner_start :
  jsval -> jsstring -> jsstring -> jsstring -> jsval -> W -> result unit * W.
Variable getLatestBlockHeight : W -> result jsval * W.
Variable self : editor.

Local Abbreviation executeIndexerFunction :=
  (executeIndexerFunction StringToNumber runner_executeIndexerFunctionOnHeights
     runner_start getLatestBlockHeight self).

Local Abbreviation code := (indexingCode self).
Local Abbreviation name := (schemaName (indexerDetails self)).

(** *** The three options, one by one *)





(** A missing [option] is the option "latest". *)
Lemma executeIndexerFunction_default sbh (w : W) :
  executeIndexerFunction JUndefined sbh w
  = executeIndexerFunction (JStr (js "latest")) sbh w.
Proof. reflexivity. Qed.





(** Above 2^53 the difference is rounded: ten below 2^60 is 2^60 again. *)
Example num_sub_rounds :
  num_sub (Int (2 ^ 60)) (Int 10) = Int (2 ^ 60)
  /\ num_sub (Int (2 ^ 53 + 2)) (Int 10) = Int (2 ^ 53 - 8)
  /\ num_sub (Int 110) (Int 10) = Int 100.
Proof. repeat split; vm_compute; reflexivity. Qed.

(** *** The claims about the options *)



End ExecuteIndexerFunction.

(** *** The option "latest" on concrete inputs *)

Import EditorDemo.


End EditorFacts.

(** ** More about the queue consumer *)

Module ConsumerBatches.
Import QueueHandler CompletionFacts ConsumerFacts.

Lemma for_of_app {E W A} (xs ys : list A) (body : A -> M E W unit) (w : W) :
  for_of (xs ++ ys) body w
  = bind (for_of xs body) (fun _ => for_of ys body) w.
Proof.
  revert w. induction xs as [|x xs IH]; intros w; simpl.
  - unfold bind, ret. by rewrite prepend_nil.
  - unfold bind. destruct (body x w) as [[[u|e] tr] w1]; [|done].
    rewrite IH. unfold bind.
    destruct (for_of xs body w1) as [[[u'|e] tr1] w2]; simpl; [|done].
    by rewrite prepend_app.
Qed.

Section Consumer.

Context {W Mutations : Type}.
Variable JSON_parse : jsstring -> result queue_message.
Variable runFunctions :
  Z -> gmap jsstring function_config -> bool -> run_options ->
  W -> result Mutations * W.

Local Abbreviation consumer := (consumer JSON_parse runFunctions).
Local Abbreviation requests := (requests JSON_parse).

Lemma consumer_app first second (w : W) :
  consumer {| Records := first ++ second |} w
  = bind (consumer {| Records := first |})
      (fun _ => consumer {| Records := second |}) w.
Proof. unfold QueueHandler.consumer. simpl. apply for_of_app. Qed.

(** X2.  A body that does not parse stops the run at that record: the
    consumer throws what [JSON.parse] threw, no later record is looked at,
    and what the earlier records did (their invocations, their effect on
    the world) stays done. *)
Theorem consumer_stops_at_malformed_body before record after e (w : W) :
  Forall (fun r => is_Ok (JSON_parse (body r)) = true) before ->
  JSON_parse (body record) = Throw e ->
  consumer {| Records := before ++ record :: after |} w
  = (Throw e,
     trace_of (consumer {| Records := before |} w),
     world_of (consumer {| Records := before |} w))
  /\ acknowledged (consumer {| Records := before ++ record :: after |} w) = false
  /\ invocations (trace_of (consumer {| Records := before ++ record :: after |} w))
     = requests before.
Proof.
  intros Hall Hbad.
  assert (E : consumer {| Records := before ++ record :: after |} w
              = (Throw e, trace_of (consumer {| Records := before |} w),
                 world_of (consumer {| Records := before |} w))).
  { rewrite consumer_app. unfold bind.
    destruct (consumer_characterised JSON_parse runFunctions before w)
      as (tr & Hc & _).
    assert (Hnone : first_parse_error JSON_parse before = None).
    { clear Hc. induction Hall as [|r rest Hr _ IH]; simpl; [done |].
      by destruct (JSON_parse (body r)). }
    rewrite Hnone in Hc. rewrite Hc. simpl.
    rewrite consumer_cons.
    rewrite (bind_throw _ _ _ _ _ _
               (consumer_record_malformed JSON_parse runFunctions _ _ _ Hbad)).
    unfold trace_of, world_of. simpl. by rewrite app_nil_r. }
  rewrite E. split; [done | split; [done |]].
  destruct (consumer_characterised JSON_parse runFunctions before w)
    as (tr & Hc & Hi & _).
  unfold trace_of. simpl. rewrite Hc. simpl.
  by rewrite Hi, (parsed_prefix_all JSON_parse _ Hall).
Qed.



End Consumer.

Import QueueDemo.

Lemma consumer_stops_at_malformed_body_demo :
  consumer parse_demo runFunctions_demo
    {| Records := [record101] ++ {| body := js "not json" |} :: [record100] |} []
  = (Throw (SyntaxError (js "Unexpected token in JSON")),
     trace_of (consumer parse_demo runFunctions_demo {| Records := [record101] |} []),
     world_of (consumer parse_demo runFunctions_demo {| Records := [record101] |} []))
  /\ acknowledged
       (consumer parse_demo runFunctions_demo
          {| Records := [record101] ++ {| body := js "not json" |} :: [record100] |} [])
     = false
  /\ invocations
       (trace_of
          (consumer parse_demo runFunctions_demo
             {| Records := [record101] ++ {| body := js "not json" |} :: [record100] |} []))
     = requests parse_demo [record101].
Proof.
  apply (consumer_stops_at_malformed_body parse_demo runFunctions_demo
           [record101] {| body := js "not json" |} [record100]
           (SyntaxError (js "Unexpected token in JSON")) []).
  - repeat constructor.
  - vm_compute. reflexivity.
Defined.

End ConsumerBatches.

(** ** More about the debug/replay surface *)

Module EditorRuns.
Import Editor EditorVocabulary CompletionFacts EditorFacts.

Lemma jsstring_eqb_true (a b : jsstring) : jsstring_eqb a b = true -> a = b.
Proof.
  revert b. induction a as [|x a IH]; intros [|y b]; simpl; try done.
  rewrite andb_true_iff, N.eqb_eq. intros [-> H]. by rewrite (IH _ H).
Qed.


Section ExecuteIndexerFunction.

Context {W : Type}.
Variable StringToNumber : jsstring -> jsnum.
Variable runner_executeIndexerFunctionOnHeights :
  list jsval -> jsstring -> jsstring -> jsstring -> jsval -> W -> result unit * W.
Variable runner_start :
  jsval -> jsstring -> jsstring -> jsstring -> jsval -> W -> result unit * W.
Variable getLatestBlockHeight : W -> result jsval * W.
Variable self : editor.

Local Abbreviation executeIndexerFunction :=
  (executeIndexerFunction StringToNumber runner_executeIndexerFunctionOnHeights
     runner_start getLatestBlockHeight self).

(** An option that is none of the three names: nothing is run. *)
Lemma executeIndexerFunction_other option_arg sbh (w : W) :
  option_arg <> JUndefined ->
  option_arg <> JStr (js "debugList") ->
  option_arg <> JStr (js "specific") ->
  option_arg <> JStr (js "latest") ->
  executeIndexerFunction option_arg sbh w
  = (Ok tt,
     [SetIsExecutingIndexerFunction true; SetIsExecutingIndexerFunction false],
     w).
Proof.
  intros Hu Hd Hs Hl. destruct option_arg as [| |b|n|s]; try done.
  assert (E1 : jsstring_eqb s (js "debugList") = false).
  { destruct (jsstring_eqb s (js "debugList")) eqn:E; [|done].
    apply jsstring_eqb_true in E. by subst. }
  assert (E2 : jsstring_eqb s (js "specific") = false).
  { destruct (jsstring_eqb s (js "specific")) eqn:E; [|done].
    apply jsstring_eqb_true in E. by subst. }
  assert (E3 : jsstring_eqb s (js "latest") = false).
  { destruct (jsstring_eqb s (js "latest")) eqn:E; [|done].
    apply jsstring_eqb_true in E. by subst. }
  unfold Editor.executeIndexerFunction.
  cbv beta iota zeta delta [strict_eq default_param].
  by rewrite E1, E2, E3.
Qed.








(** X7.  The [switch] has no default case: with an option that is none of
    "debugList", "specific" and "latest", nothing is run and nothing is
    reported; the flag goes up and down and the world is left as it was. *)
Theorem unknown_option_runs_nothing option_arg sbh (w : W) :
  option_arg <> JUndefined ->
  option_arg <> JStr (js "debugList") ->
  option_arg <> JStr (js "specific") ->
  option_arg <> JStr (js "latest") ->
  trace_of (executeIndexerFunction option_arg sbh w)
  = [SetIsExecutingIndexerFunction true; SetIsExecutingIndexerFunction false]
  /\ completion_of (executeIndexerFunction option_arg sbh w) = Ok tt
  /\ world_of (executeIndexerFunction option_arg sbh w) = w.
Proof.
  intros Hu Hd Hs Hl.
  by rewrite (executeIndexerFunction_other _ _ _ Hu Hd Hs Hl).
Qed.

End ExecuteIndexerFunction.

Import EditorDemo.

Lemma unknown_option_runs_nothing_demo :
  trace_of (executeIndexerFunction_demo (JStr (js "debuglist")) (JNum (Int 100)) [])
  = [SetIsExecutingIndexerFunction true; SetIsExecutingIndexerFunction false]
  /\ completion_of
       (executeIndexerFunction_demo (JStr (js "debuglist")) (JNum (Int 100)) [])
     = Ok tt
  /\ world_of
       (executeIndexerFunction_demo (JStr (js "debuglist")) (JNum (Int 100)) [])
     = [].
Proof.
  apply (unknown_option_runs_nothing StringToNumber_demo
           onHeights_demo start_demo latest_demo
           editor_demo (JStr (js "debuglist")) (JNum (Int 100)) []);
    discriminate.
Defined.

End EditorRuns.

(** ** More string operations *)

Module JsStringOpsFacts.

Example replaceAll_dots : replaceAll (js "a.b.near") (js ".") (js "_") = js "a_b_near".
Proof. reflexivity. Qed.

Example replaceAll_no_overlap : replaceAll (js "aaa") (js "aa") (js "b") = js "ba".
Proof. reflexivity. Qed.

Example replaceAll_empty_pattern : replaceAll (js "abc") [] (js "_") = js "_a_b_c_".
Proof. reflexivity. Qed.

Example replaceAll_empty_string : replaceAll [] [] (js "_") = js "_".
Proof. reflexivity. Qed.

Example replaceAll_dollar_patterns :
  replaceAll (js "x-y") (js "-") (js "[$&|$`|$'|$$|$1]") = js "x[-|x|y|$|$1]y".
Proof. reflexivity. Qed.

Example trim_both_ends : trim (js "  my feed  ") = js "my feed".
Proof. reflexivity. Qed.

Example match_getBlock_wrapped :
  match_getBlock (js "async function getBlock(block: Block) { const h = 1; }")
  = Some (js " const h = 1; ").
Proof. reflexivity. Qed.

Example match_getBlock_absent : match_getBlock (js "function f() { }") = None.
Proof. reflexivity. Qed.

(** *** [replaceAll] *)

Lemma substitution_single (d : N) (matched before after : jsstring) :
  substitution [d] matched before after = [d].
Proof. unfold substitution. by destruct (d =? dollar)%N. Qed.

Lemma replaceAll_from_single (whole s : jsstring) (c d : N) (pos : nat) :
  replaceAll_from whole s [c] [d] pos 0
  = List.map (fun x => if (c =? x)%N then d else x) s.
Proof.
  revert pos. induction s as [|x s IH]; intros pos; [done |].
  cbn [replaceAll_from List.map startsWith length].
  rewrite substitution_single.
  destruct (c =? x)%N; cbn [andb app]; by rewrite IH.
Qed.

(** Replacing one code unit by one code unit, everywhere. *)
Lemma replaceAll_single (s : jsstring) (c d : N) :
  replaceAll s [c] [d] = List.map (fun x => if (c =? x)%N then d else x) s.
Proof. apply replaceAll_from_single. Qed.

Lemma replaceAll_from_absent (whole s pat replacement : jsstring) (pos : nat) (k : Z) :
  0 <= k -> indexOf_from s pat k = -1 ->
  replaceAll_from whole s pat replacement pos 0 = s.
Proof.
  revert pos k. induction s as [|c s IH]; intros pos k Hk H.
  - simpl in *. destruct (startsWith pat []); [lia | done].
  - cbn [replaceAll_from]. simpl in H.
    destruct (startsWith pat (c :: s)); [lia |].
    f_equal. apply (IH _ (k + 1)); [lia | done].
Qed.

(** A pattern that does not occur: the text is returned as it is. *)
Lemma replaceAll_absent (s pat replacement : jsstring) :
  indexOf s pat = -1 -> replaceAll s pat replacement = s.
Proof. intros H. by apply (replaceAll_from_absent s s pat replacement 0 0). Qed.

Lemma substitution_plain (r matched before after : jsstring) :
  Forall (fun c => c <> dollar) r -> substitution r matched before after = r.
Proof.
  induction 1 as [|c r Hc _ IH]; [done |].
  cbn [substitution]. destruct (c =? dollar)%N eqn:E.
  - by apply N.eqb_eq in E.
  - by rewrite IH.
Qed.

Lemma replaceAll_from_before (whole pre rest pat r : jsstring) (pos : nat) (k : Z) :
  indexOf_from (pre ++ rest) pat k = k + Z.of_nat (length pre) ->
  replaceAll_from whole (pre ++ rest) pat r pos 0
  = pre ++ replaceAll_from whole rest pat r (pos + length pre) 0.
Proof.
  revert pos k. induction pre as [|c pre IH]; intros pos k H.
  - simpl. by rewrite Nat.add_0_r.
  - change ((c :: pre) ++ rest) with (c :: pre ++ rest) in *.
    cbn [replaceAll_from].
    change (indexOf_from (c :: pre ++ rest) pat k)
      with (if startsWith pat (c :: pre ++ rest) then k
            else indexOf_from (pre ++ rest) pat (k + 1)) in H.
    destruct (startsWith pat (c :: pre ++ rest)).
    + simpl length in H. lia.
    + rewrite (IH (S pos) (k + 1)) by (rewrite H; simpl length; lia).
      simpl length. by rewrite Nat.add_succ_r.
Qed.

Lemma replaceAll_from_skip (whole l s pat r : jsstring) (pos : nat) :
  replaceAll_from whole (l ++ s) pat r pos (length l)
  = replaceAll_from whole s pat r (pos + length l) 0.
Proof.
  revert pos. induction l as [|x l IH]; intros pos.
  - simpl. by rewrite Nat.add_0_r.
  - simpl. rewrite IH. by rewrite Nat.add_succ_r.
Qed.

(** A pattern that occurs once: that occurrence is replaced, the rest is
    kept. *)
Lemma replaceAll_single_occurrence (pre pat post r : jsstring) :
  pat <> [] ->
  indexOf (pre ++ pat ++ post) pat = Z.of_nat (length pre) ->
  indexOf post pat = -1 ->
  replaceAll (pre ++ pat ++ post) pat r
  = pre ++ substitution r pat pre post ++ post.
Proof.
  intros Hpat Hfirst Hlast. unfold replaceAll, indexOf in *.
  rewrite (replaceAll_from_before _ _ _ _ _ 0 0) by (rewrite Hfirst; lia).
  f_equal. destruct pat as [|p pat]; [done |].
  change ((p :: pat) ++ post) with (p :: pat ++ post).
  cbn [replaceAll_from].
  assert (E : startsWith (p :: pat) (p :: pat ++ post) = true).
  { apply JsStringFacts.startsWith_prefix. by exists post. }
  rewrite E. cbn [length].
  rewrite replaceAll_from_skip.
  rewrite (replaceAll_from_absent _ _ _ _ _ 0) by (lia || done).
  f_equal. f_equal.
  - by rewrite Nat.add_0_l, take_app_length.
  - rewrite Nat.add_0_l, <- drop_drop, drop_app_length.
    apply (drop_app_length (p :: pat)).
Qed.

(** *** The regular expression of [registerFunction] *)

Lemma skip_while_app (p : N -> bool) (l rest : jsstring) :
  Forall (fun c => p c = true) l ->
  skip_while p (l ++ rest) = skip_while p rest.
Proof. induction 1 as [|c l Hc _ IH]; simpl; [done |]. by rewrite Hc. Qed.

Lemma upto_last_none (c : N) (s : jsstring) :
  Forall (fun x => (x =? c)%N = false) s -> upto_last c s = None.
Proof. induction 1 as [|x s Hx _ IH]; simpl; [done |]. by rewrite IH, Hx. Qed.

Lemma upto_last_app (c : N) (body rest : jsstring) :
  Forall (fun x => (x =? c)%N = false) rest ->
  upto_last c (body ++ c :: rest) = Some body.
Proof.
  intros Hrest. induction body as [|x body IH]; simpl.
  - by rewrite (upto_last_none _ _ Hrest), N.eqb_refl.
  - by rewrite IH.
Qed.

Lemma match_getBlock_at_function (ws1 params ws2 body rest : jsstring) :
  Forall (fun c => is_space c = true) ws1 ->
  Forall (fun c => (c =? rparen)%N = false) params ->
  Forall (fun c => is_space c = true) ws2 ->
  Forall (fun c => (c =? rbrace)%N = false) rest ->
  match_getBlock_at
    (js "getBlock" ++ ws1 ++ js "(" ++ params ++ js ")" ++ ws2 ++ js "{"
     ++ body ++ js "}" ++ rest)
  = Some body.
Proof.
  intros H1 Hp H2 Hr. unfold match_getBlock_at.
  rewrite (proj2 (JsStringFacts.startsWith_prefix _ _)) by (by eexists).
  replace (drop 8 (js "getBlock" ++ ws1 ++ js "(" ++ params ++ js ")" ++ ws2
                   ++ js "{" ++ body ++ js "}" ++ rest))
    with (ws1 ++ lparen :: params ++ rparen :: ws2 ++ lbrace :: body
          ++ rbrace :: rest) by reflexivity.
  rewrite (skip_while_app _ _ _ H1). cbn [skip_while].
  replace (is_space lparen) with false by reflexivity.
  rewrite N.eqb_refl.
  rewrite (skip_while_app (fun c => negb (c =? rparen)%N)).
  2: { eapply Forall_impl; [exact Hp |]. by intros c ->. }
  cbn [skip_while]. rewrite N.eqb_refl. cbn [negb].
  rewrite (skip_while_app _ _ _ H2). cbn [skip_while].
  replace (is_space lbrace) with false by reflexivity.
  rewrite N.eqb_refl. by apply upto_last_app.
Qed.

(** Before the first occurrence of the pattern no suffix starts with it. *)
Lemma match_getBlock_skip (pre rest : jsstring) (k : Z) :
  indexOf_from (pre ++ rest) (js "getBlock") k = k + Z.of_nat (length pre) ->
  match_getBlock (pre ++ rest) = match_getBlock rest.
Proof.
  revert k. induction pre as [|c pre IH]; intros k H; [done |].
  change (match_getBlock ((c :: pre) ++ rest))
    with (match match_getBlock_at (c :: pre ++ rest) with
          | Some g => Some g
          | None => match_getBlock (pre ++ rest)
          end).
  change (indexOf_from ((c :: pre) ++ rest) (js "getBlock") k)
    with (if startsWith (js "getBlock") (c :: pre ++ rest) then k
          else indexOf_from (pre ++ rest) (js "getBlock") (k + 1)) in H.
  unfold match_getBlock_at at 1.
  destruct (startsWith (js "getBlock") (c :: pre ++ rest)).
  - simpl length in H. lia.
  - apply (IH (k + 1)). rewrite H. simpl length. lia.
Qed.

Lemma match_getBlock_head (s : jsstring) (g : jsstring) :
  match_getBlock_at s = Some g -> match_getBlock s = Some g.
Proof. intros H. destruct s; cbn [match_getBlock]; by rewrite H. Qed.

Lemma match_getBlock_absent_from (s : jsstring) (k : Z) :
  0 <= k -> indexOf_from s (js "getBlock") k = -1 -> match_getBlock s = None.
Proof.
  revert k. induction s as [|c s IH]; intros k Hk H; [reflexivity |].
  change (indexOf_from (c :: s) (js "getBlock") k)
    with (if startsWith (js "getBlock") (c :: s) then k
          else indexOf_from s (js "getBlock") (k + 1)) in H.
  change (match_getBlock (c :: s))
    with (match match_getBlock_at (c :: s) with
          | Some g => Some g
          | None => match_getBlock s
          end).
  unfold match_getBlock_at at 1.
  destruct (startsWith (js "getBlock") (c :: s)); [lia |].
  apply (IH (k + 1)); [lia | done].
Qed.

(** A text in which getBlock does not occur has no match. *)
Lemma match_getBlock_without_name (s : jsstring) :
  indexOf s (js "getBlock") = -1 -> match_getBlock s = None.
Proof. by apply match_getBlock_absent_from. Qed.

End JsStringOpsFacts.

(** ** The other handlers of the editor component *)

Module EditorUIFacts.
Import Editor EditorUI CompletionFacts JsStringOpsFacts.

(** *** The keys of the local storage *)

Lemma schema_key_not_code_key (d : indexer_details) :
  SCHEMA_STORAGE_KEY d <> CODE_STORAGE_KEY d.
Proof. discriminate. Qed.

(** X8.  The four storage keys of one indexer are pairwise different, so
    that the schema, the generated types, the code and the debug list of
    an indexer never overwrite one another in the local storage. *)
Theorem storage_keys_distinct (d : indexer_details) :
  SCHEMA_STORAGE_KEY d <> CODE_STORAGE_KEY d
  /\ SCHEMA_STORAGE_KEY d <> SCHEMA_TYPES_STORAGE_KEY d
  /\ SCHEMA_STORAGE_KEY d <> DEBUG_LIST_STORAGE_KEY d
  /\ CODE_STORAGE_KEY d <> SCHEMA_TYPES_STORAGE_KEY d
  /\ CODE_STORAGE_KEY d <> DEBUG_LIST_STORAGE_KEY d
  /\ SCHEMA_TYPES_STORAGE_KEY d <> DEBUG_LIST_STORAGE_KEY d.
Proof.
  unfold SCHEMA_STORAGE_KEY, CODE_STORAGE_KEY, SCHEMA_TYPES_STORAGE_KEY,
    DEBUG_LIST_STORAGE_KEY.
  repeat split; try discriminate.
  intros H. apply (f_equal length) in H. rewrite !length_app in H.
  simpl in H. lia.
Qed.

(** X9.  Saving the draft and reading it back gives the schema and the
    code that were saved, except that an empty text is not restored: the
    state it would replace is left as it is. *)
Theorem restore_after_save (d : indexer_details) (schema indexingCode : jsstring)
    (localStorage : gmap jsstring jsstring) :
  restore_draft d (save_draft d schema indexingCode localStorage)
  = match schema with [] => [] | _ => [SetSchema (JStr schema)] end
    ++ match indexingCode with [] => [] | _ => [SetIndexingCode (JStr indexingCode)] end.
Proof.
  pose proof (schema_key_not_code_key d) as Hsc.
  unfold restore_draft, save_draft.
  rewrite lookup_insert_ne by done. rewrite !lookup_insert_eq.
  by destruct schema, indexingCode.
Qed.

Section Heights.

Variable NumberToString : jsnum -> jsstring.

(** X10.  The debug list does not survive the storage as a list: a list
    saved by the effect is read back as the text of the list (its elements
    joined by commas), and as the empty list when that text is empty.  A
    list with an element is therefore never read back as it was. *)
Theorem heights_not_restored_as_list (d : indexer_details) (l : list jsval)
    (localStorage : gmap jsstring jsstring) :
  initial_heights d (save_heights NumberToString d (HeightsArray l) localStorage)
  = match join_comma NumberToString l with
    | [] => HeightsArray []
    | text => HeightsText text
    end
  /\ (l <> [] ->
      initial_heights d (save_heights NumberToString d (HeightsArray l) localStorage)
      <> HeightsArray l).
Proof.
  assert (E : initial_heights d
                (save_heights NumberToString d (HeightsArray l) localStorage)
              = match join_comma NumberToString l with
                | [] => HeightsArray []
                | text => HeightsText text
                end).
  { unfold initial_heights, save_heights. rewrite lookup_insert_eq.
    unfold heights_text. by destruct (join_comma NumberToString l). }
  split; [done |]. rewrite E. intros Hl.
  destruct (join_comma NumberToString l); [|done].
  intros [= <-]. done.
Qed.

End Heights.

Lemma heights_not_restored_as_list_demo :
  initial_heights (indexerDetails EditorDemo.editor_demo)
    (save_heights EditorUIDemo.NumberToString_demo
       (indexerDetails EditorDemo.editor_demo)
       (HeightsArray [JNum (Int 100); JNum (Int 100); JNum (Int 101)]) ∅)
  = HeightsText (js "100,100,101")
  /\ (initial_heights (indexerDetails EditorDemo.editor_demo)
        (save_heights EditorUIDemo.NumberToString_demo
           (indexerDetails EditorDemo.editor_demo)
           (HeightsArray [JNum (Int 100); JNum (Int 100); JNum (Int 101)]) ∅)
      <> HeightsArray [JNum (Int 100); JNum (Int 100); JNum (Int 101)]).
Proof.
  destruct (heights_not_restored_as_list EditorUIDemo.NumberToString_demo
              (indexerDetails EditorDemo.editor_demo)
              [JNum (Int 100); JNum (Int 100); JNum (Int 101)] ∅) as [E H].
  split; [exact E | apply H; discriminate].
Defined.

(** *** The handlers *)

Section Handlers.

Context {W : Type}.
Variable CODE_FORMATTING_ERROR_MESSAGE : jsstring.
Variable SCHEMA_FORMATTING_ERROR_MESSAGE : jsstring.
Variable SCHEMA_TYPE_GENERATION_ERROR_MESSAGE : jsstring.
Variable FORMATTING_ERROR_TYPE : jsstring.
Variable TYPE_GENERATION_ERROR_TYPE : jsstring.
Variable INDEXER_REGISTER_TYPE_GENERATION_ERROR : jsstring.
Variable validateJSCode : jsval -> validation.
Variable validateSQLSchema : jsval -> validation.
Variable formatIndexingCode : jsstring -> result jsval.
Variable wrapCode : jsval -> result jsval.
Variable defaultCode defaultSchema defaultSchemaTypes : jsval.
Variable toLowerCase : jsstring -> jsstring.
Variable queryIndexerFunctionDetails :
  jsstring -> jsstring -> W -> result (option function_details) * W.
Variable self : editor.
Variable currentUserAccountId : jsstring.
Variable isCreateNewIndexer : bool.
Variable originalIndexingCode originalSQLCode : jsval.

Local Abbreviation reformatAll :=
  (reformatAll (W := W) CODE_FORMATTING_ERROR_MESSAGE
     SCHEMA_FORMATTING_ERROR_MESSAGE SCHEMA_TYPE_GENERATION_ERROR_MESSAGE
     FORMATTING_ERROR_TYPE TYPE_GENERATION_ERROR_TYPE validateJSCode
     validateSQLSchema).
Local Abbreviation handleFormating :=
  (handleFormating (W := W) CODE_FORMATTING_ERROR_MESSAGE
     SCHEMA_FORMATTING_ERROR_MESSAGE SCHEMA_TYPE_GENERATION_ERROR_MESSAGE
     FORMATTING_ERROR_TYPE TYPE_GENERATION_ERROR_TYPE validateJSCode
     validateSQLSchema self).
Local Abbreviation registerFunction :=
  (registerFunction (W := W) CODE_FORMATTING_ERROR_MESSAGE
     SCHEMA_FORMATTING_ERROR_MESSAGE FORMATTING_ERROR_TYPE
     TYPE_GENERATION_ERROR_TYPE INDEXER_REGISTER_TYPE_GENERATION_ERROR
     validateJSCode validateSQLSchema self).
Local Abbreviation forkIndexer :=
  (forkIndexer (W := W) formatIndexingCode toLowerCase self currentUserAccountId).
Local Abbreviation handleReload :=
  (handleReload CODE_FORMATTING_ERROR_MESSAGE
     SCHEMA_FORMATTING_ERROR_MESSAGE SCHEMA_TYPE_GENERATION_ERROR_MESSAGE
     FORMATTING_ERROR_TYPE TYPE_GENERATION_ERROR_TYPE validateJSCode
     validateSQLSchema wrapCode defaultCode defaultSchema defaultSchemaTypes
     queryIndexerFunctionDetails self isCreateNewIndexer originalIndexingCode
     originalSQLCode).

(** [reformatAll] reports once, ends normally and leaves the world alone. *)
Lemma reformatAll_reports_once indexingCode schema (w : W) :
  exists message r,
    reformatAll indexingCode schema w = (Ok r, [SetError message], w).
Proof.
  unfold EditorUI.reformatAll, bind, emit, ret.
  repeat case_match; simpl; by eexists _, _.
Qed.

(** X11.  [handleFormating] never throws and always makes the same three
    updates: one error state, the code, the schema.  With invalid code the
    code is set to what it was and only the code error is reported, while
    the schema is still replaced by what the schema validator returned,
    whether the schema is valid or not; with valid code and a schema that
    has a formatting or type-generation error, the schema is set to what
    it was. *)
Theorem handleFormating_updates (w : W) :
  exists message c s,
    handleFormating w
    = (Ok tt, [SetError message; SetIndexingCode c; SetSchema s], w)
    /\ (error (validateJSCode (JStr (indexingCode self))) <> None ->
        message = Some CODE_FORMATTING_ERROR_MESSAGE
        /\ c = JStr (indexingCode self)
        /\ s = data (validateSQLSchema (JStr (schema self))))
    /\ (error (validateJSCode (JStr (indexingCode self))) = None ->
        c = data (validateJSCode (JStr (indexingCode self)))
        /\ (error_has_type (error (validateSQLSchema (JStr (schema self))))
              FORMATTING_ERROR_TYPE
            || error_has_type (error (validateSQLSchema (JStr (schema self))))
                 TYPE_GENERATION_ERROR_TYPE = true ->
            s = JStr (schema self) /\ message <> None)).
Proof.
  unfold EditorUI.handleFormating, EditorUI.reformatAll, bind, emit, ret.
  destruct (error (validateJSCode (JStr (indexingCode self)))) as [err|];
    [| destruct (error_has_type _ FORMATTING_ERROR_TYPE);
       [| destruct (error_has_type _ TYPE_GENERATION_ERROR_TYPE)]];
    simpl; eexists _, _, _; (split; [reflexivity |]); split; try done.
Qed.

(** X12.  [registerFunction] sends at most one message to the host page.
    When it sends one, it is "register-function"; validation found no
    error in the code and no formatting or type-generation error in the
    schema; the indexer name has no space left in it; and the code sent is
    what the regular expression captured in the validated code. *)
Theorem registerFunction_sends_valid_only indexerName indexerConfig (w : W) :
  match requests_of (trace_of (registerFunction indexerName indexerConfig w)) with
  | [] => True
  | [(type, payload)] =>
      type = js "register-function"
      /\ error (validateJSCode (JStr (indexingCode self))) = None
      /\ error_has_type (error (validateSQLSchema (JStr (schema self))))
           FORMATTING_ERROR_TYPE = false
      /\ error_has_type (error (validateSQLSchema (JStr (schema self))))
           TYPE_GENERATION_ERROR_TYPE = false
      /\ Forall (fun c => c <> 32%N) (reg_indexerName payload)
      /\ (exists text,
            data (validateJSCode (JStr (indexingCode self))) = JStr text
            /\ match_getBlock text = Some (reg_code payload))
      /\ reg_schema payload = data (validateSQLSchema (JStr (schema self)))
  | _ => False
  end.
Proof.
  unfold EditorUI.registerFunction, bind, emit, lift.
  destruct (error (validateJSCode (JStr (indexingCode self)))) as [err|]; [done |].
  destruct (data (validateJSCode (JStr (indexingCode self)))) as [| |b|n|text];
    try done.
  destruct (match_getBlock text) as [group|] eqn:Hg; [|done].
  destruct (error_has_type _ FORMATTING_ERROR_TYPE) eqn:Hf; [done |].
  destruct (error_has_type _ TYPE_GENERATION_ERROR_TYPE) eqn:Ht; [done |].
  cbn [prepend trace_of fst snd app requests_of omap].
  repeat split; try done.
  - cbn [reg_indexerName]. change (js " ") with [32%N]. change (js "_") with [95%N].
    rewrite replaceAll_single.
    induction indexerName as [|x rest IH]; cbn [List.map]; constructor; [| done].
    destruct (32 =? x)%N eqn:E; [discriminate |].
    intros ->. by rewrite N.eqb_refl in E.
  - by exists text.
Qed.

(** X13.  Registering a function: when the validated code is a getBlock
    function (its name, white space, a parameter list without a closing
    parenthesis in it, white space, and a body in braces) and nothing
    after the body has a closing brace, and validation found no error,
    the message "register-function" carries exactly the body of the
    function, the indexer name with every space replaced by an underscore,
    the validated schema and the two settings of the configuration; then
    the publish modal is closed.  The body runs up to the last closing
    brace of the text. *)
Theorem registerFunction_sends_function_body indexerName indexerConfig
    (pre ws1 params ws2 body rest : jsstring) (w : W) :
  error (validateJSCode (JStr (indexingCode self))) = None ->
  data (validateJSCode (JStr (indexingCode self)))
  = JStr (pre ++ js "getBlock" ++ ws1 ++ js "(" ++ params ++ js ")" ++ ws2
          ++ js "{" ++ body ++ js "}" ++ rest) ->
  indexOf (pre ++ js "getBlock" ++ ws1 ++ js "(" ++ params ++ js ")" ++ ws2
           ++ js "{" ++ body ++ js "}" ++ rest) (js "getBlock")
  = Z.of_nat (length pre) ->
  Forall (fun c => is_space c = true) ws1 ->
  Forall (fun c => (c =? rparen)%N = false) params ->
  Forall (fun c => is_space c = true) ws2 ->
  Forall (fun c => (c =? rbrace)%N = false) rest ->
  error_has_type (error (validateSQLSchema (JStr (schema self))))
    FORMATTING_ERROR_TYPE = false ->
  error_has_type (error (validateSQLSchema (JStr (schema self))))
    TYPE_GENERATION_ERROR_TYPE = false ->
  registerFunction indexerName indexerConfig w
  = (Ok tt,
     [Request (js "register-function")
        {| reg_indexerName :=
             List.map (fun c => if (32 =? c)%N then 95%N else c) indexerName;
           reg_code := body;
           reg_schema := data (validateSQLSchema (JStr (schema self)));
           reg_blockHeight := startBlockHeight indexerConfig;
           reg_contractFilter := filter indexerConfig |};
      SetShowPublishModal false],
     w).
Proof.
  intros He Hd Hfirst H1 Hp H2 Hr Hf Ht.
  unfold EditorUI.registerFunction, bind, emit, lift.
  rewrite He, Hd, Hf, Ht.
  rewrite (match_getBlock_skip pre _ 0) by (unfold indexOf in Hfirst; lia).
  rewrite (match_getBlock_head _ body)
    by (by apply match_getBlock_at_function).
  cbn [prepend app]. change (js " ") with [32%N]. change (js "_") with [95%N].
  by rewrite replaceAll_single.
Qed.

(** X14.  When the validated code has no getBlock in it, the match is
    [null] and reading its group throws: [registerFunction] ends with a
    TypeError before it looks at the schema errors, having reported
    nothing and sent nothing. *)
Theorem registerFunction_throws_without_getBlock indexerName indexerConfig
    (text : jsstring) (w : W) :
  error (validateJSCode (JStr (indexingCode self))) = None ->
  data (validateJSCode (JStr (indexingCode self))) = JStr text ->
  indexOf text (js "getBlock") = -1 ->
  registerFunction indexerName indexerConfig w = (Throw TypeError, [], w).
Proof.
  intros He Hd Hnone.
  unfold EditorUI.registerFunction, bind, emit, lift.
  by rewrite He, Hd, (match_getBlock_without_name _ Hnone).
Qed.

Lemma fork_code_unit (c : N) :
  (if (46 =? c)%N then underscore else c)
  = (if is_alnum c then c else underscore)
  <-> is_alnum c = true \/ c = 46%N \/ c = underscore.
Proof.
  destruct (46 =? c)%N eqn:E46.
  - apply N.eqb_eq in E46. subst c. split; [intros _; right; by left | done].
  - destruct (is_alnum c) eqn:Ea.
    + split; [by left | done].
    + split; [intros ->; right; by right |].
      intros [H | [-> | ->]]; [done | by rewrite N.eqb_refl in E46 | done].
Qed.

(** X15.  [forkIndexer] rewrites the account in the code after replacing
    only the dots of the account by underscores, whereas the namespace
    name replaces every code unit outside [a-zA-Z0-9].  The two agree on
    an account exactly when the account has no other code unit than
    letters, digits, dots and underscores. *)
Theorem fork_account_matches_namespace (account : jsstring) :
  replaceAll account (js ".") (js "_") = replace_non_alnum account
  <-> Forall (fun c => is_alnum c = true \/ c = 46%N \/ c = underscore) account.
Proof.
  change (js ".") with [46%N]. change (js "_") with [underscore].
  rewrite replaceAll_single. unfold replace_non_alnum.
  induction account as [|c account IH]; cbn [List.map].
  - split; [constructor | done].
  - split.
    + intros H. injection H as Hc Hrest.
      constructor; [by apply fork_code_unit | by apply IH].
    + intros H. inversion H as [|? ? Hc Hrest]; subst.
      f_equal; [by apply fork_code_unit | by apply IH].
Qed.

(** X16.  [forkIndexer] switches the account first.  When neither the
    previous account (dots replaced) nor the previous indexer name
    (dashes replaced, trimmed, lower case) occurs in the code, the code is
    handed to the formatter as it is; when the formatter throws, the
    account has been switched and the code is not set. *)
Theorem forkIndexer_without_occurrence indexerName (w : W) :
  indexOf (indexingCode self)
    (replaceAll (accountId (indexerDetails self)) (js ".") (js "_")) = -1 ->
  indexOf (indexingCode self)
    (toLowerCase
       (trim (replaceAll (Editor.indexerName (indexerDetails self)) (js "-") (js "_"))))
  = -1 ->
  forkIndexer indexerName w
  = match formatIndexingCode (indexingCode self) with
    | Ok formatted =>
        (Ok tt, [SetAccountId currentUserAccountId; SetIndexingCode formatted], w)
    | Throw e => (Throw e, [SetAccountId currentUserAccountId], w)
    end.
Proof.
  intros Ha Hn. unfold EditorUI.forkIndexer, bind, emit, lift.
  rewrite (replaceAll_absent _ _ _ Ha), (replaceAll_absent _ _ _ Hn).
  by destruct (formatIndexingCode (indexingCode self)).
Qed.

Lemma handleReload_outcome (w : W) :
  (exists tr w',
      handleReload w = (Ok tt, tr, w') /\ reset_modal_updates tr = [false])
  \/ (isCreateNewIndexer = false
      /\ exists e w',
           queryIndexerFunctionDetails (accountId (indexerDetails self))
             (Editor.indexerName (indexerDetails self)) w = (Throw e, w')
           /\ handleReload w
              = (Throw e,
                 [QueryIndexerFunctionDetails (accountId (indexerDetails self))
                    (Editor.indexerName (indexerDetails self))], w')).
Proof.
  unfold EditorUI.handleReload.
  destruct isCreateNewIndexer; [left; by eexists _, _ |].
  unfold bind, call, try_catch, emit, lift, ret.
  destruct (queryIndexerFunctionDetails _ _ w) as [[[details|]|e] w'] eqn:Hq.
  - left.
    destruct (wrapCode (details_code details)) as [code|e];
      [| by eexists _, _].
    destruct (reformatAll_reports_once code (details_schema details) w')
      as (message & r & Hr).
    destruct (strict_eq code JNull), (strict_eq (details_schema details) JNull);
      simpl; rewrite Hr; by eexists _, _.
  - left. by eexists _, _.
  - right. split; [done |]. by exists e, w'.
Qed.

(** X18.  [forkIndexer] rewrites the account: when the previous account
    (dots replaced by underscores) occurs once in the code, that
    occurrence is replaced by the account of the current user (dots
    replaced by underscores) and the rest of the code is kept, provided
    the new account has no dollar sign in it and the previous indexer name
    does not occur in the rewritten code. *)
Theorem forkIndexer_rewrites_account indexerName (pre post : jsstring) (w : W) :
  indexingCode self
  = pre ++ replaceAll (accountId (indexerDetails self)) (js ".") (js "_") ++ post ->
  accountId (indexerDetails self) <> [] ->
  indexOf (indexingCode self)
    (replaceAll (accountId (indexerDetails self)) (js ".") (js "_"))
  = Z.of_nat (length pre) ->
  indexOf post (replaceAll (accountId (indexerDetails self)) (js ".") (js "_"))
  = -1 ->
  Forall (fun c => c <> dollar) currentUserAccountId ->
  indexOf (pre ++ replaceAll currentUserAccountId (js ".") (js "_") ++ post)
    (toLowerCase
       (trim (replaceAll (Editor.indexerName (indexerDetails self)) (js "-") (js "_"))))
  = -1 ->
  forkIndexer indexerName w
  = match formatIndexingCode
            (pre ++ replaceAll currentUserAccountId (js ".") (js "_") ++ post) with
    | Ok formatted =>
        (Ok tt, [SetAccountId currentUserAccountId; SetIndexingCode formatted], w)
    | Throw e => (Throw e, [SetAccountId currentUserAccountId], w)
    end.
Proof.
  intros Hcode Hacc Hfirst Hlast Hdollar Hname.
  unfold EditorUI.forkIndexer, bind, emit, lift.
  assert (Hnew : Forall (fun c => c <> dollar)
                   (replaceAll currentUserAccountId (js ".") (js "_"))).
  { change (js ".") with [46%N]. change (js "_") with [95%N].
    rewrite replaceAll_single. clear -Hdollar.
    induction Hdollar as [|c rest Hc _ IH]; cbn [List.map]; constructor; [| done].
    by destruct (46 =? c)%N. }
  assert (Hprev : replaceAll (accountId (indexerDetails self)) (js ".") (js "_")
                  <> []).
  { change (js ".") with [46%N]. change (js "_") with [95%N].
    rewrite replaceAll_single.
    by destruct (accountId (indexerDetails self)). }
  rewrite Hcode in Hfirst. rewrite Hcode at 1.
  rewrite (replaceAll_single_occurrence _ _ _ _ Hprev Hfirst Hlast).
  rewrite (substitution_plain _ _ _ _ Hnew).
  rewrite (replaceAll_absent _ _ _ Hname).
  by destruct (formatIndexingCode _).
Qed.

(** X17.  [handleReload] closes the reset modal exactly once on every run
    that ends normally, and the only error that leaves it is one thrown by
    [queryIndexerFunctionDetails]: what [wrapCode] throws is caught and
    written to the console. *)
Theorem handleReload_closes_modal (w : W) :
  (completion_of (handleReload w) = Ok tt
   /\ reset_modal_updates (trace_of (handleReload w)) = [false])
  \/ (isCreateNewIndexer = false
      /\ exists e w',
           queryIndexerFunctionDetails (accountId (indexerDetails self))
             (Editor.indexerName (indexerDetails self)) w = (Throw e, w')
           /\ handleReload w
              = (Throw e,
                 [QueryIndexerFunctionDetails (accountId (indexerDetails self))
                    (Editor.indexerName (indexerDetails self))], w')).
Proof.
  destruct (handleReload_outcome w) as [(tr & w' & -> & Hm) | H]; [by left |].
  by right.
Qed.

End Handlers.

(** *** The handlers on concrete inputs *)

Import EditorUIDemo.

Lemma handleFormating_updates_demo :
  exists message c s,
    handleFormating (W := unit) (js "code error") (js "schema error")
      (js "types error") (js "FORMATTING_ERROR") (js "TYPE_GENERATION_ERROR")
      reject_demo reject_demo editor_wrapped tt
    = (Ok tt, [SetError message; SetIndexingCode c; SetSchema s], tt)
    /\ (error (reject_demo (JStr (indexingCode editor_wrapped))) <> None ->
        message = Some (js "code error")
        /\ c = JStr (indexingCode editor_wrapped)
        /\ s = data (reject_demo (JStr (schema editor_wrapped))))
    /\ (error (reject_demo (JStr (indexingCode editor_wrapped))) = None ->
        c = data (reject_demo (JStr (indexingCode editor_wrapped)))
        /\ (error_has_type (error (reject_demo (JStr (schema editor_wrapped))))
              (js "FORMATTING_ERROR")
            || error_has_type (error (reject_demo (JStr (schema editor_wrapped))))
                 (js "TYPE_GENERATION_ERROR") = true ->
            s = JStr (schema editor_wrapped) /\ message <> None)).
Proof.
  exact (handleFormating_updates (W := unit) (js "code error") (js "schema error")
           (js "types error") (js "FORMATTING_ERROR") (js "TYPE_GENERATION_ERROR")
           reject_demo reject_demo editor_wrapped tt).
Defined.

Lemma registerFunction_sends_function_body_demo :
  registerFunction (W := unit) (js "code error") (js "schema error")
    (js "FORMATTING_ERROR") (js "TYPE_GENERATION_ERROR") (js "types error")
    accept_demo accept_demo editor_wrapped (js "my feed v2") config_demo tt
  = (Ok tt,
     [Request (js "register-function")
        {| reg_indexerName := js "my_feed_v2";
           reg_code := js " const h = block.blockHeight; ";
           reg_schema := JStr (schema editor_wrapped);
           reg_blockHeight := JNum (Int 100);
           reg_contractFilter := JStr (js "social.near") |};
      SetShowPublishModal false],
     tt).
Proof.
  apply (registerFunction_sends_function_body (W := unit) (js "code error")
           (js "schema error") (js "FORMATTING_ERROR")
           (js "TYPE_GENERATION_ERROR") (js "types error") accept_demo
           accept_demo editor_wrapped (js "my feed v2") config_demo
           (js "async function ") [] (js "block: Block") (js " ")
           (js " const h = block.blockHeight; ") [] tt);
    try reflexivity; repeat constructor.
Defined.

Lemma registerFunction_throws_without_getBlock_demo :
  registerFunction (W := unit) (js "code error") (js "schema error")
    (js "FORMATTING_ERROR") (js "TYPE_GENERATION_ERROR") (js "types error")
    accept_demo reject_demo EditorDemo.editor_demo (js "feed") config_demo tt
  = (Throw TypeError, [], tt).
Proof.
  apply (registerFunction_throws_without_getBlock (W := unit) (js "code error")
           (js "schema error") (js "FORMATTING_ERROR")
           (js "TYPE_GENERATION_ERROR") (js "types error") accept_demo
           reject_demo EditorDemo.editor_demo (js "feed") config_demo
           (indexingCode EditorDemo.editor_demo) tt);
    reflexivity.
Defined.

Lemma forkIndexer_without_occurrence_demo :
  forkIndexer (W := unit) formatIndexingCode_demo toLowerCase_demo
    EditorDemo.editor_demo (js "bob.near") (js "My-Feed") tt
  = (Ok tt,
     [SetAccountId (js "bob.near");
      SetIndexingCode (JStr (indexingCode EditorDemo.editor_demo))],
     tt).
Proof.
  apply (forkIndexer_without_occurrence (W := unit) formatIndexingCode_demo
           toLowerCase_demo EditorDemo.editor_demo (js "bob.near")
           (js "My-Feed") tt);
    reflexivity.
Defined.

Lemma forkIndexer_rewrites_account_demo :
  forkIndexer (W := unit) formatIndexingCode_demo toLowerCase_demo
    editor_tables (js "bob.near") (js "My-Feed") tt
  = (Ok tt,
     [SetAccountId (js "bob.near");
      SetIndexingCode
        (JStr (js "await context.graphql(mutation, { table: 'bob_near_posts' });"))],
     tt).
Proof.
  apply (forkIndexer_rewrites_account (W := unit) formatIndexingCode_demo
           toLowerCase_demo editor_tables (js "bob.near") (js "My-Feed")
           (js "await context.graphql(mutation, { table: '") (js "_posts' });") tt);
    try reflexivity; try discriminate.
  repeat constructor; discriminate.
Defined.

End EditorUIFacts.
